(** * The news feed card: fetch, cache and fallback

    A shallow embedding of [fetchNews] and [handleLoadMore] of the
    [NewsFeedCard] component, and the properties of its cache and fallback
    policy.

    The component's code runs on a JavaScript engine, inside React, against
    [localStorage], the clock and a remote client.  The embedding keeps the
    values dynamic, as [JSON.parse] hands them to the code, threads the view
    state, the storage, the clock and an effect trace through a small
    state-and-exception monad, and cuts [fetchNews] at its single [await]. *)

From Stdlib Require Import ZArith NArith List Lia Bool.
From Stdlib Require Import Ascii DecimalString.
From stdpp Require Import base option list strings gmap.

Local Open Scope Z_scope.

(** ** Strings

    A JavaScript string is a sequence of UTF-16 code units. *)

Abbreviation jsstring := (list N).

Definition str (s : String.string) : jsstring :=
  map Ascii.N_of_ascii (String.list_ascii_of_string s).
Arguments str s%_string.

Definition string_of_nat (n : nat) : jsstring :=
  str (DecimalString.NilEmpty.string_of_uint (Nat.to_uint n)).

Definition jsstring_eqb (a b : jsstring) : bool := bool_decide (a = b).

(** [s.startsWith(p)] *)
Fixpoint startsWith (p s : jsstring) : bool :=
  match p, s with
  | [], _ => true
  | _ :: _, [] => false
  | a :: p', b :: s' => N.eqb a b && startsWith p' s'
  end.

(** [s.includes(p)] *)
Fixpoint includes (p s : jsstring) : bool :=
  startsWith p s ||
  match s with
  | [] => false
  | _ :: s' => includes p s'
  end.

(** [s.indexOf(c)] for a one-unit pattern [c]; [-1] when [c] does not occur. *)
Fixpoint indexOf (c : N) (s : jsstring) : Z :=
  match s with
  | [] => -1
  | x :: s' =>
      if N.eqb x c then 0
      else let i := indexOf c s' in if i <? 0 then -1 else i + 1
  end.

(** [s.lastIndexOf(c)] for a one-unit pattern [c]. *)
Fixpoint lastIndexOf (c : N) (s : jsstring) : Z :=
  match s with
  | [] => -1
  | x :: s' =>
      let i := lastIndexOf c s' in
      if 0 <=? i then i + 1 else if N.eqb x c then 0 else -1
  end.

(** [s.substring(a, b)]: both ends are clamped to the string and swapped
    when they come in the wrong order. *)
Definition substring (s : jsstring) (a b : Z) : jsstring :=
  let len := Z.of_nat (length s) in
  let a' := Z.min (Z.max a 0) len in
  let b' := Z.min (Z.max b 0) len in
  let from := Z.min a' b' in
  let to := Z.max a' b' in
  take (Z.to_nat (to - from)) (drop (Z.to_nat from) s).

(** White space and line terminators, the code units [trim] strips. *)
Definition is_space (c : N) : bool :=
  existsb (N.eqb c)
    [0x09; 0x0A; 0x0B; 0x0C; 0x0D; 0x20; 0xA0; 0x1680; 0x2028; 0x2029;
     0x202F; 0x205F; 0x3000; 0xFEFF]%N
  || (N.leb 0x2000 c && N.leb c 0x200A).

Fixpoint trimStart (s : jsstring) : jsstring :=
  match s with
  | [] => []
  | c :: s' => if is_space c then trimStart s' else s
  end.

Definition trimEnd (s : jsstring) : jsstring := rev (trimStart (rev s)).

Definition trim (s : jsstring) : jsstring := trimEnd (trimStart s).

Definition LBRACKET : N := 91.
Definition RBRACKET : N := 93.

(** ** Values

    The values the code handles: what [JSON.parse] returns, and [undefined]
    for a missing property.  A number is an integer here: the time stamps
    and ids this code computes and stores are integers far below 2^53, where
    the engine's floating-point arithmetic is exact.  An object is its list
    of own properties, in property order, each key once. *)

#[warnings="-register-all"] Inductive JSValue : Type :=
  | JUndefined
  | JNull
  | JBool (b : bool)
  | JNum (n : Z)
  | JStr (s : jsstring)
  | JArr (elements : list JSValue)
  | JObj (props : list (jsstring * JSValue)).

(** What a [throw] carries.  [Error m] is [new Error(m)].  [Thrown r] is any
    other thrown value whose [toString()] returns the string [r]: an error
    raised by the engine or a rejection of the remote client.
    [Unprintable e] is a thrown value whose string form cannot be taken:
    [undefined] or [null], an object whose [toString] is not a function,
    throws, or returns a value that has no [includes]; [e] is what the
    attempt throws, a [TypeError] in all cases but the third. *)
Inductive Exn : Type :=
  | Error (message : jsstring)
  | Thrown (repr : jsstring)
  | Unprintable (thrown : Exn).

(** How an evaluation ends. *)
Inductive Completion (A : Type) : Type :=
  | Normal (a : A)
  | Throw (e : Exn).
Arguments Normal {A} a.
Arguments Throw {A} e.

(** [err.toString()], up to the string the code searches. *)
Definition toString (e : Exn) : Completion jsstring :=
  match e with
  | Error [] => Normal (str "Error")
  | Error m => Normal (str "Error: " ++ m)
  | Thrown r => Normal r
  | Unprintable thrown => Throw thrown
  end.

(** The engine: the built-ins the code calls and that this repository does
    not define.  Every theorem below holds for any engine. *)
Class Platform : Type := {
  (** [JSON.parse], with the [SyntaxError] it throws on malformed text *)
  JSON_parse : jsstring -> Completion JSValue;
  (** [JSON.stringify] *)
  JSON_stringify : JSValue -> jsstring;
  (** the numeric value of a string; [None] is [NaN] *)
  StringToNumber : jsstring -> option Z;
  (** the string form of a number *)
  Number_toString : Z -> jsstring;
  (** the [TypeError] raised by a property access on [null] or [undefined],
      a call of a non-function, a spread of a non-iterable or an object
      that cannot be made a primitive *)
  TypeError : Exn
}.

Definition lookup_prop (k : jsstring) (props : list (jsstring * JSValue)) : JSValue :=
  match find (fun p => jsstring_eqb (fst p) k) props with
  | Some p => snd p
  | None => JUndefined
  end.

(** [o.k = v] on a fresh object literal: an existing key keeps its place. *)
Fixpoint set_prop (k : jsstring) (v : JSValue) (props : list (jsstring * JSValue))
  : list (jsstring * JSValue) :=
  match props with
  | [] => [(k, v)]
  | (k', v') :: rest =>
      if jsstring_eqb k' k then (k, v) :: rest else (k', v') :: set_prop k v rest
  end.

(** The code units of a string as one-unit strings. *)
Definition units (s : jsstring) : list JSValue := map (fun c => JStr [c]) s.

(** The iteration of a string: by code point, a surrogate pair staying
    together. *)
Definition is_lead (c : N) : bool := N.leb 0xD800 c && N.leb c 0xDBFF.
Definition is_trail (c : N) : bool := N.leb 0xDC00 c && N.leb c 0xDFFF.

Fixpoint code_points (s : jsstring) : list JSValue :=
  match s with
  | [] => []
  | [c] => [JStr [c]]
  | c :: (d :: s'') as s' =>
      if is_lead c && is_trail d
      then JStr [c; d] :: code_points s''
      else JStr [c] :: code_points s'
  end.

Section Engine.
Context `{Platform}.

(** [v.k] for the keys the code reads: [timestamp], [articles], [length]
    and the fields of an article; none is an array index, and none is a
    property of [Object.prototype]. *)
Definition Get (v : JSValue) (k : jsstring) : Completion JSValue :=
  match v with
  | JUndefined | JNull => Throw TypeError
  | JBool _ | JNum _ => Normal JUndefined
  | JStr s =>
      Normal (if jsstring_eqb k (str "length") then JNum (Z.of_nat (length s)) else JUndefined)
  | JArr l =>
      Normal (if jsstring_eqb k (str "length") then JNum (Z.of_nat (length l)) else JUndefined)
  | JObj props => Normal (lookup_prop k props)
  end.

(** The object has an own property [k]. *)
Definition has_own (k : jsstring) (props : list (jsstring * JSValue)) : bool :=
  existsb (fun p => jsstring_eqb (fst p) k) props.

(** [Array.prototype.join], given the string form of an element: the
    elements in turn, with commas between; the first one that throws ends
    the call. *)
Fixpoint Array_join (element : JSValue -> Completion jsstring) (l : list JSValue)
  : Completion jsstring :=
  match l with
  | [] => Normal []
  | x :: rest =>
      match element x with
      | Throw e => Throw e
      | Normal s =>
          match rest with
          | [] => Normal s
          | _ :: _ =>
              match Array_join element rest with
              | Throw e => Throw e
              | Normal r => Normal (s ++ str "," ++ r)
              end
          end
      end
  end.

(** The string a value coerces to, in a concatenation and in the [join] of
    an array.  The objects here are decoded from JSON: an object prints
    through [Object.prototype.toString], unless an own property [toString],
    which is never a function, hides it; no primitive can then be made of
    the object, and the coercion throws.  An array prints through [join],
    [undefined] and [null] as the empty string. *)
Fixpoint ToString (v : JSValue) : Completion jsstring :=
  match v with
  | JUndefined => Normal (str "undefined")
  | JNull => Normal (str "null")
  | JBool b => Normal (if b then str "true" else str "false")
  | JNum n => Normal (Number_toString n)
  | JStr s => Normal s
  | JArr l =>
      Array_join (fun x => match x with
                           | JUndefined | JNull => Normal []
                           | _ => ToString x
                           end) l
  | JObj props =>
      if has_own (str "toString") props then Throw TypeError
      else Normal (str "[object Object]")
  end.

(** The number a value coerces to in [-], [<] and [>]; [None] is [NaN].
    An array is made a string first; an object is [NaN], or throws as in
    [ToString]. *)
Definition ToNumber (v : JSValue) : Completion (option Z) :=
  match v with
  | JUndefined => Normal None
  | JNull => Normal (Some 0)
  | JBool b => Normal (Some (if b then 1 else 0))
  | JNum n => Normal (Some n)
  | JStr s => Normal (StringToNumber s)
  | JArr _ =>
      match ToString v with
      | Throw e => Throw e
      | Normal s => Normal (StringToNumber s)
      end
  | JObj props =>
      if has_own (str "toString") props then Throw TypeError else Normal None
  end.

(** [a - b], [a < b] and [a > b] on numbers that may be [NaN]. *)
Definition num_sub (a b : option Z) : option Z :=
  match a, b with
  | Some x, Some y => Some (x - y)
  | _, _ => None
  end.

Definition num_lt (a b : option Z) : bool :=
  match a, b with
  | Some x, Some y => x <? y
  | _, _ => false
  end.

Definition num_gt (a b : option Z) : bool := num_lt b a.

(** The own enumerable properties an object spread [{...v}] copies. *)
Definition spread_props (v : JSValue) : list (jsstring * JSValue) :=
  match v with
  | JObj props => props
  | JArr l => imap (fun i x => (string_of_nat i, x)) l
  | JStr s => imap (fun i x => (string_of_nat i, x)) (units s)
  | _ => []
  end.

(** The elements an array spread [[...v]] yields; a value that is not
    iterable throws. *)
Definition spread_elements (v : JSValue) : Completion (list JSValue) :=
  match v with
  | JArr l => Normal l
  | JStr s => Normal (code_points s)
  | _ => Throw TypeError
  end.

End Engine.

(** ** The component's world *)

(** The four [useState] cells.  [articles] is declared [Article[]], but
    holds whatever the code hands to [setArticles]. *)
Record ViewState : Type := {
  articles : JSValue;
  loading : bool;
  fetchingMore : bool;
  error : option jsstring
}.

(** What the component does to the outside: a [generateContent] request,
    whose prompt is built from the language and the date, and the writes and
    removals on [localStorage]. *)
Inductive Effect : Type :=
  | Query (language : jsstring) (date : Z)
  | SetItem (key value : jsstring)
  | RemoveItem (key : jsstring).

(** [clock] lists what the successive readings of the clock return, [reads]
    counts the readings made so far.  [render_fault] records that a state
    updater threw inside React. *)
Record World : Type := {
  view : ViewState;
  localStorage : gmap jsstring jsstring;
  clock : nat -> Z;
  reads : nat;
  trace : list Effect;
  render_fault : bool
}.

Definition with_view (f : ViewState -> ViewState) (w : World) : World :=
  {| view := f (view w); localStorage := localStorage w; clock := clock w;
     reads := reads w; trace := trace w; render_fault := render_fault w |}.

Definition with_storage (f : gmap jsstring jsstring -> gmap jsstring jsstring)
    (e : Effect) (w : World) : World :=
  {| view := view w; localStorage := f (localStorage w); clock := clock w;
     reads := reads w; trace := trace w ++ [e]; render_fault := render_fault w |}.

(** The state on mount: the initial values given to [useState]. *)
Definition initial_view : ViewState :=
  {| articles := JArr []; loading := true; fetchingMore := false; error := None |}.

(** ** The monad: state that survives a [throw] *)

Definition M (A : Type) : Type := World -> Completion A * World.

#[export] Instance M_ret : MRet M := fun A a w => (Normal a, w).

#[export] Instance M_bind : MBind M := fun A B f m w =>
  match m w with
  | (Normal a, w') => f a w'
  | (Throw e, w') => (Throw e, w')
  end.

Definition throw {A : Type} (e : Exn) : M A := fun w => (Throw e, w).

Definition lift {A : Type} (c : Completion A) : M A := fun w => (c, w).

(** [try { body } catch (e) { handler e }] *)
Definition try_catch {A : Type} (body : M A) (handler : Exn -> M A) : M A := fun w =>
  match body w with
  | (Normal a, w') => (Normal a, w')
  | (Throw e, w') => handler e w'
  end.

(** [try { body } finally { finalizer }] *)
Definition try_finally {A : Type} (body : M A) (finalizer : M unit) : M A := fun w =>
  match body w with
  | (c, w') =>
      match finalizer w' with
      | (Normal _, w'') => (c, w'')
      | (Throw e, w'') => (Throw e, w'')
      end
  end.

(** *** The primitives *)

Definition setArticles (v : JSValue) : M unit := fun w =>
  (Normal tt, with_view (fun s =>
     {| articles := v; loading := loading s; fetchingMore := fetchingMore s;
        error := error s |}) w).

Definition setLoading (b : bool) : M unit := fun w =>
  (Normal tt, with_view (fun s =>
     {| articles := articles s; loading := b; fetchingMore := fetchingMore s;
        error := error s |}) w).

Definition setFetchingMore (b : bool) : M unit := fun w =>
  (Normal tt, with_view (fun s =>
     {| articles := articles s; loading := loading s; fetchingMore := b;
        error := error s |}) w).

Definition setError (e : option jsstring) : M unit := fun w =>
  (Normal tt, with_view (fun s =>
     {| articles := articles s; loading := loading s;
        fetchingMore := fetchingMore s; error := e |}) w).

(** [setArticles(prev => ...)]: React runs the updater on the current
    list.  An updater that throws does so inside React, not in the caller:
    the list stays and the fault is recorded. *)
Definition setArticles_with (updater : JSValue -> M JSValue) : M unit := fun w =>
  match updater (articles (view w)) w with
  | (Normal v, w') => setArticles v w'
  | (Throw _, w') =>
      (Normal tt,
       {| view := view w'; localStorage := localStorage w'; clock := clock w';
          reads := reads w'; trace := trace w'; render_fault := true |})
  end.

(** [localStorage.getItem(k)]; [None] is [null]. *)
Definition getItem (k : jsstring) : M (option jsstring) := fun w =>
  (Normal (localStorage w !! k), w).

(** [localStorage.setItem(k, v)].  The store takes every write: a quota
    error is outside the model. *)
Definition setItem (k v : jsstring) : M unit := fun w =>
  (Normal tt, with_storage (insert k v) (SetItem k v) w).

Definition removeItem (k : jsstring) : M unit := fun w =>
  (Normal tt, with_storage (delete k) (RemoveItem k) w).

(** [Date.now()], and [new Date()]: one reading of the clock. *)
Definition Date_now : M Z := fun w =>
  (Normal (clock w (reads w)),
   {| view := view w; localStorage := localStorage w; clock := clock w;
      reads := S (reads w); trace := trace w; render_fault := render_fault w |}).

(** [ai.models.generateContent(...)]: the request leaves.  What the client
    throws on the way, before or after the request, is how the request
    settles. *)
Definition generateContent (language : jsstring) (date : Z) : M unit := fun w =>
  (Normal tt,
   {| view := view w; localStorage := localStorage w; clock := clock w;
      reads := reads w; trace := trace w ++ [Query language date];
      render_fault := render_fault w |}).

(** A string is truthy unless empty; [null] is falsy. *)
Definition truthy (s : option jsstring) : option jsstring :=
  match s with
  | Some (_ :: _) => s
  | _ => None
  end.

(** ** Constants of the component *)

Definition CACHE_KEY_PREFIX : jsstring := str "insight_quest_news_cache_".
Definition CACHE_DURATION : Z := 15 * 60 * 1000.

Definition NO_ARRAY_MESSAGE : jsstring :=
  str "No valid JSON array found in the model's response.".
Definition PARSE_FAILED_MESSAGE : jsstring := str "Failed to parse news data.".

Definition FETCH_FAILED : jsstring := str "Failed to fetch news. Please try again later.".
Definition FETCH_RATE_LIMITED : jsstring :=
  str "News service is temporarily unavailable due to high demand. Showing older articles if available.".
Definition MORE_FAILED : jsstring := str "Could not load more articles.".
Definition MORE_RATE_LIMITED : jsstring :=
  str "Could not load more articles due to high demand.".

(** The two hardcoded articles of the last fallback. *)
Definition FALLBACK_ARTICLES : JSValue :=
  JArr [
    JObj [(str "id", JNum 1);
          (str "category", JStr (str "Business"));
          (str "title", JStr (str "HKMA maintains base rate at 5.75 percent"));
          (str "summary", JStr (str "The Hong Kong Monetary Authority (HKMA) on Thursday maintained its base rate at 5.75 percent. This decision comes after the US Federal Reserve kept its key interest rate unchanged amid ongoing inflation concerns. The HKMA's move was widely expected by economists, who predict that local borrowing costs will remain elevated for the foreseeable future. This stability is crucial for maintaining the Hong Kong dollar's peg to the US dollar. Businesses are closely watching these developments, as higher interest rates can impact investment and consumer spending across the city."));
          (str "sourceUrl", JStr (str "#"))];
    JObj [(str "id", JNum 2);
          (str "category", JStr (str "Community"));
          (str "title", JStr (str "HK Community Ball raises funds for charity"));
          (str "summary", JStr (str "The annual Hong Kong Community Ball was held last Saturday, raising over HK$5 million for local charities supporting underprivileged children and the elderly. The event, a highlight of the city's social calendar, was attended by numerous business leaders and philanthropists. An auction featuring unique experiences and luxury items was a major contributor to the funds raised. Organizers expressed their gratitude for the community's generosity, emphasizing the significant impact these funds will have on improving the lives of vulnerable groups in Hong Kong, especially in the post-pandemic recovery period."));
          (str "sourceUrl", JStr (str "#"))]
  ].

(** What the remote client hands back: [response.text] may be [undefined]. *)
Record Response : Type := { text : option jsstring }.

(** ** [fetchNews] *)

Section FetchNews.
Context `{Platform}.

Definition cacheKey (language : jsstring) : jsstring := CACHE_KEY_PREFIX ++ language.

Definition cachePayload (timestamp : Z) (articles : JSValue) : JSValue :=
  JObj [(str "timestamp", JNum timestamp); (str "articles", articles)].

(** The body of the [try] that reads the cache before the fetch.  [true]:
    the cached articles were adopted and [fetchNews] returns. *)
Definition use_fresh_cache (cachedData : jsstring) : M bool :=
  parsed ← lift (JSON_parse cachedData);
  timestamp ← lift (Get parsed (str "timestamp"));
  cachedArticles ← lift (Get parsed (str "articles"));
  now ← Date_now;
  stamp ← lift (ToNumber timestamp);
  if num_lt (num_sub (Some now) stamp) (Some CACHE_DURATION) then
    len ← lift (Get cachedArticles (str "length"));
    n ← lift (ToNumber len);
    if num_gt n (Some 0) then
      setArticles cachedArticles;;
      setLoading false;;
      setError None;;
      mret true
    else mret false
  else mret false.

(** [if (isRefresh) { ... } else { setFetchingMore(true) }] *)
Definition before_fetch (isRefresh : bool) (cacheKey : jsstring) : M bool :=
  if isRefresh then
    setLoading true;;
    cachedData ← getItem cacheKey;
    match truthy cachedData with
    | Some data =>
        try_catch (use_fresh_cache data)
                  (fun e => removeItem cacheKey;; mret false)
    | None => mret false
    end
  else
    setFetchingMore true;;
    mret false.

(** [fetchNews] up to its [await].  [true]: the request has left and the
    task waits for it; [false]: the task is over. *)
Definition fetchNews_start (isRefresh : bool) (language : jsstring) : M bool :=
  returned ← before_fetch isRefresh (cacheKey language);
  if returned : bool then mret false
  else
    setError None;;
    now ← Date_now;
    generateContent language now;;
    mret true.

(** The body of the inner [try]: trim, locate the brackets, slice, decode. *)
Definition extract_json (response_text : option jsstring) : Completion JSValue :=
  match response_text with
  | None => Throw TypeError
  | Some t =>
      let responseText := trim t in
      let startIndex := indexOf LBRACKET responseText in
      let endIndex := lastIndexOf RBRACKET responseText in
      if (startIndex =? -1) || (endIndex =? -1) || (endIndex <? startIndex)
      then Throw (Error NO_ARRAY_MESSAGE)
      else JSON_parse (substring responseText startIndex (endIndex + 1))
  end.

(** The inner [try] with its [catch]; the two calls of [console.error]
    have no effect on the state and are left out. *)
Definition parse_response (response_text : option jsstring) : Completion JSValue :=
  match extract_json response_text with
  | Normal articlesData => Normal articlesData
  | Throw parseError => Throw (Error PARSE_FAILED_MESSAGE)
  end.

(** [{ ...article, id: Date.now() + index }] *)
Definition with_id (article : JSValue) (index : nat) : M JSValue :=
  now ← Date_now;
  mret (JObj (set_prop (str "id") (JNum (now + Z.of_nat index)) (spread_props article))).

(** The callback of [map] along the array, from [index] on. *)
Fixpoint map_with_id (l : list JSValue) (index : nat) : M (list JSValue) :=
  match l with
  | [] => mret []
  | article :: rest =>
      a ← with_id article index;
      r ← map_with_id rest (S index);
      mret (a :: r)
  end.

(** [articlesData.map(...)]: only an array has [map]. *)
Definition newArticlesWithIds (articlesData : JSValue) : M (list JSValue) :=
  match articlesData with
  | JArr l => map_with_id l 0
  | _ => throw TypeError
  end.

(** [if (isRefresh) { ... } else { setArticles(prevArticles => ...) }] *)
Definition on_success (isRefresh : bool) (cacheKey : jsstring) (new : list JSValue) : M unit :=
  if isRefresh then
    setArticles (JArr new);;
    now ← Date_now;
    setItem cacheKey (JSON_stringify (cachePayload now (JArr new)))
  else
    setArticles_with (fun prevArticles =>
      prev ← lift (spread_elements prevArticles);
      let allArticles := JArr (prev ++ new) in
      now ← Date_now;
      setItem cacheKey (JSON_stringify (cachePayload now allArticles));;
      mret allArticles).

Definition isRateLimitError (errString : jsstring) : bool :=
  includes (str "429") errString || includes (str "RESOURCE_EXHAUSTED") errString.

(** The [try] of the outer [catch] that reads the cache again.  [true]:
    the cached articles were adopted and the handler returns. *)
Definition use_stale_cache (cachedData userMessage : jsstring) : M bool :=
  parsed ← lift (JSON_parse cachedData);
  cachedArticles ← lift (Get parsed (str "articles"));
  len ← lift (Get cachedArticles (str "length"));
  n ← lift (ToNumber len);
  if num_gt n (Some 0) then
    setArticles cachedArticles;;
    setError (Some userMessage);;
    mret true
  else mret false.

(** The outer [catch].  Its first statements stand in no [try]: what
    [err.toString()] throws leaves the handler. *)
Definition on_failure (isRefresh : bool) (cacheKey : jsstring) (err : Exn) : M unit :=
  errString ← lift (toString err);
  let userMessage :=
    if isRateLimitError errString then FETCH_RATE_LIMITED else FETCH_FAILED in
  if isRefresh then
    cachedData ← getItem cacheKey;
    returned ← match truthy cachedData with
               | Some data =>
                   try_catch (use_stale_cache data userMessage) (fun e => mret false)
               | None => mret false
               end;
    if returned : bool then mret tt
    else
      setError (Some userMessage);;
      setArticles FALLBACK_ARTICLES
  else
    setError (Some (if isRateLimitError errString then MORE_RATE_LIMITED else MORE_FAILED)).

(** The outer [try] from the [await] on.  [settled] is how the request
    ended: a response, or what the client threw. *)
Definition after_await (isRefresh : bool) (cacheKey : jsstring)
    (settled : Completion Response) : M unit :=
  response ← lift settled;
  articlesData ← lift (parse_response (text response));
  new ← newArticlesWithIds articlesData;
  on_success isRefresh cacheKey new.

(** [fetchNews] from its [await] on, with [catch] and [finally]. *)
Definition fetchNews_resume (isRefresh : bool) (language : jsstring)
    (settled : Completion Response) : M unit :=
  try_finally
    (try_catch (after_await isRefresh (cacheKey language) settled)
               (on_failure isRefresh (cacheKey language)))
    (if isRefresh then setLoading false else setFetchingMore false).

(** A whole call, when nothing else runs while it waits. *)
Definition fetchNews (isRefresh : bool) (language : jsstring)
    (settled : Completion Response) : M unit :=
  awaiting ← fetchNews_start isRefresh language;
  if awaiting : bool then fetchNews_resume isRefresh language settled else mret tt.

(** ** The component in its event loop *)

(** A call of [fetchNews] that waits for its request. *)
Record Task : Type := { isRefresh : bool; language : jsstring }.

Record System : Type := {
  world : World;
  pending : list Task
}.

(** The effect on [language] and [fetchNews] fires, the "More" button is
    clicked, or the request of the [i]th waiting task settles. *)
Inductive Event : Type :=
  | EffectRun (language : jsstring)
  | ClickMore (language : jsstring)
  | Settle (i : nat) (settled : Completion Response).

Definition start (r : bool) (l : jsstring) (s : System) : System :=
  match fetchNews_start r l (world s) with
  | (Normal true, w) => {| world := w; pending := pending s ++ [{| isRefresh := r; language := l |}] |}
  | (_, w) => {| world := w; pending := pending s |}
  end.

(** [handleLoadMore], rendered for [language]. *)
Definition handleLoadMore (l : jsstring) (s : System) : System :=
  if negb (fetchingMore (view (world s))) then start false l s else s.

Definition step (s : System) (e : Event) : System :=
  match e with
  | EffectRun l => start true l s
  | ClickMore l => handleLoadMore l s
  | Settle i settled =>
      match pending s !! i with
      | Some t =>
          {| world := snd (fetchNews_resume (isRefresh t) (language t) settled (world s));
             pending := delete i (pending s) |}
      | None => s
      end
  end.

Definition run (s : System) (es : list Event) : System := fold_left step es s.

Definition mounted (w : World) : System := {| world := w; pending := [] |}.

End FetchNews.

(** ** What a call depends on *)

Section Outcomes.
Context `{Platform}.

(** How the fetch ends for the outer [try]: the decoded array, or the error
    that reaches the outer [catch]. *)
Definition fetched (settled : Completion Response) : Completion (list JSValue) :=
  match settled with
  | Throw e => Throw e
  | Normal response =>
      match parse_response (text response) with
      | Throw e => Throw e
      | Normal (JArr l) => Normal l
      | Normal _ => Throw TypeError
      end
  end.

(** The world after [n] more readings of the clock. *)
Definition advance (n : nat) (w : World) : World :=
  {| view := view w; localStorage := localStorage w; clock := clock w;
     reads := (n + reads w)%nat; trace := trace w; render_fault := render_fault w |}.

(** The batch [l] with its ids, when the map starts in world [w]. *)
Definition stamped (w : World) (l : list JSValue) : list JSValue :=
  imap (fun i article =>
          JObj (set_prop (str "id")
                  (JNum (clock w (i + reads w)%nat + Z.of_nat i))
                  (spread_props article))) l.

(** The [id] of a record. *)
Definition id_of (v : JSValue) : JSValue :=
  match v with
  | JObj props => lookup_prop (str "id") props
  | _ => JUndefined
  end.

(** The test [a.length > 0] passes. *)
Definition non_empty (a : JSValue) : Prop :=
  exists len n,
    Get a (str "length") = Normal len /\ ToNumber len = Normal n /\
    num_gt n (Some 0) = true.

(** The store holds under [key] a parseable payload whose articles [a] are
    non-empty. *)
Definition usable (st : gmap jsstring jsstring) (key : jsstring) (a : JSValue) : Prop :=
  exists data parsed,
    st !! key = Some data /\ data <> [] /\
    JSON_parse data = Normal parsed /\
    Get parsed (str "articles") = Normal a /\ non_empty a.

(** Reading the text [data] before the fetch, at time [now], throws:
    [JSON.parse] rejects it, or it decodes to [null], or its timestamp
    cannot be made a number, or its timestamp is fresh and its articles are
    [null] or missing, or have a length that cannot be made a number. *)
Definition read_throws (data : jsstring) (now : Z) : Prop :=
  match JSON_parse data with
  | Throw _ => True
  | Normal parsed =>
      match Get parsed (str "timestamp"), Get parsed (str "articles") with
      | Normal timestamp, Normal cachedArticles =>
          match ToNumber timestamp with
          | Throw _ => True
          | Normal stamp =>
              num_lt (num_sub (Some now) stamp) (Some CACHE_DURATION) = true /\
              match Get cachedArticles (str "length") with
              | Throw _ => True
              | Normal len => exists e, ToNumber len = Throw e
              end
          end
      | _, _ => True
      end
  end.

(** The entry under [key] is corrupt: a refresh that reads it now throws. *)
Definition corrupt (w : World) (key : jsstring) : Prop :=
  exists data,
    localStorage w !! key = Some data /\ data <> [] /\
    read_throws data (clock w (reads w)).



(** What the failure handler of a refresh finds in the store: the articles
    of a parseable payload that pass the test [length > 0]. *)
Definition stale_articles (st : gmap jsstring jsstring) (key : jsstring) : option JSValue :=
  match truthy (st !! key) with
  | Some data =>
      match JSON_parse data with
      | Normal parsed =>
          match Get parsed (str "articles") with
          | Normal a =>
              match Get a (str "length") with
              | Normal len =>
                  match ToNumber len with
                  | Normal n => if num_gt n (Some 0) then Some a else None
                  | Throw _ => None
                  end
              | Throw _ => None
              end
          | Throw _ => None
          end
      | Throw _ => None
      end
  | None => None
  end.

(** The message a failed refresh shows, and the one a failed load of more
    articles shows, for an error whose string form is [errString]. *)
Definition userMessage (errString : jsstring) : jsstring :=
  if isRateLimitError errString then FETCH_RATE_LIMITED else FETCH_FAILED.

Definition moreMessage (errString : jsstring) : jsstring :=
  if isRateLimitError errString then MORE_RATE_LIMITED else MORE_FAILED.

(** What an effect does to the store. *)
Definition replay (st : gmap jsstring jsstring) (e : Effect) : gmap jsstring jsstring :=
  match e with
  | Query _ _ => st
  | SetItem k v => <[k := v]> st
  | RemoveItem k => delete k st
  end.

(** The messages the view state can show. *)
Definition user_facing : list jsstring :=
  [FETCH_FAILED; FETCH_RATE_LIMITED; MORE_FAILED; MORE_RATE_LIMITED].

(** The loads of more articles that wait for their request. *)
Definition loads_in_flight (s : System) : nat :=
  length (filter (fun t => isRefresh t = false) (pending s)).

End Outcomes.

(** ** An engine to run the examples on *)

Module Demo.

(** A text written with apostrophes for its double quotes. *)
Definition dq (s : jsstring) : jsstring :=
  map (fun c => if N.eqb c 39 then 34%N else c) s.

Definition quote (s : jsstring) : jsstring := [34%N] ++ s ++ [34%N].

Fixpoint join (sep : jsstring) (l : list jsstring) : jsstring :=
  match l with
  | [] => []
  | [x] => x
  | x :: l' => x ++ sep ++ join sep l'
  end.

(** The JSON text of a value of the examples: its strings need no escape
    and none of its properties is [undefined]. *)
Fixpoint write (v : JSValue) : jsstring :=
  match v with
  | JUndefined | JNull => str "null"
  | JBool b => if b then str "true" else str "false"
  | JNum n => str (NilZero.string_of_int (Z.to_int n))
  | JStr s => quote s
  | JArr l => str "[" ++ join (str ",") (map write l) ++ str "]"
  | JObj props =>
      str "{" ++ join (str ",") (map (fun p => quote (fst p) ++ str ":" ++ write (snd p)) props)
        ++ str "}"
  end.

Definition article (title summary category sourceUrl : String.string) : JSValue :=
  JObj [(str "title", JStr (str title)); (str "summary", JStr (str summary));
        (str "category", JStr (str category)); (str "sourceUrl", JStr (str sourceUrl))].

Definition stored (id : Z) (title : String.string) : JSValue :=
  JObj [(str "title", JStr (str title)); (str "summary", JStr (str "s"));
        (str "category", JStr (str "c")); (str "sourceUrl", JStr (str "u"));
        (str "id", JNum id)].

(** A payload whose timestamp is an object with a property [toString]. *)
Definition odd_payload : JSValue :=
  JObj [(str "timestamp", JObj [(str "toString", JNum 1)]);
        (str "articles", JArr [stored 1000000 "Old"])].

(** The values whose text the demo engine decodes. *)
Definition known : list JSValue :=
  [ JArr [article "A" "s" "c" "u"];
    JArr [article "A" "s" "c" "u"; article "B" "s" "c" "u"];
    cachePayload 1000000 (JArr [stored 1000000 "Old"]);
    cachePayload 1000000 (JArr []);
    JNull;
    odd_payload ].

#[export] Instance engine : Platform := {|
  JSON_parse := fun s =>
    match find (fun v => jsstring_eqb (write v) s) known with
    | Some v => Normal v
    | None => Throw (Thrown (str "SyntaxError: Unexpected token"))
    end;
  JSON_stringify := write;
  StringToNumber := fun _ => None;
  Number_toString := fun n => str (NilZero.string_of_int (Z.to_int n));
  TypeError := Thrown (str "TypeError")
|}.

(** A clock that advances by one millisecond at each reading. *)
Definition ticking (t0 : Z) : nat -> Z := fun i => Z.of_nat i + t0.

Definition lang : jsstring := str "en".

Definition world_with (a : JSValue) (st : gmap jsstring jsstring) (t0 : Z) : World :=
  {| view := {| articles := a; loading := false; fetchingMore := false; error := None |};
     localStorage := st; clock := ticking t0; reads := 0; trace := []; render_fault := false |}.

Definition cached (v : JSValue) : gmap jsstring jsstring :=
  {[ cacheKey lang := write v ]}.

(** A payload written at time 1000000 with one article. *)
Definition old_payload : JSValue := cachePayload 1000000 (JArr [stored 1000000 "Old"]).

(** One tenth of a second after the payload was written, and a thousand
    seconds after. *)
Definition fresh_world : World := world_with (JArr []) (cached old_payload) 1000100.

(** A store without entry, and a list already on display. *)
Definition empty_world : World := world_with (JArr []) ∅ 5000000.
Definition showing_world : World :=
  world_with (JArr [stored 1000000 "Old"]) (cached old_payload) 5000000.

Definition rate_limited : Completion Response :=
  Throw (Thrown (str "ApiError: got status: 429 Too Many Requests")).
Definition network_down : Completion Response :=
  Throw (Thrown (str "TypeError: Failed to fetch")).

(** A request rejected with [undefined]: its [toString()] is a [TypeError]. *)
Definition rejected_with_undefined : Completion Response :=
  Throw (Unprintable TypeError).
Definition answered (t : jsstring) : Completion Response :=
  Normal {| text := Some t |}.

(** The answer of the spec's example: noise around an array of one article. *)
Definition noisy_answer : jsstring :=
  str "noise {not json} " ++ write (JArr [article "A" "s" "c" "u"]) ++ str " trailing".

(** A store whose entry is not JSON, and a view state whose list is not a
    list, as only a tampered payload can make it. *)
Definition corrupt_world : World :=
  world_with (JArr []) {[ cacheKey lang := str "{not json" ]} 5000000.
Definition unspreadable_world : World :=
  world_with (JObj [(str "length", JNum 1)]) ∅ 5000000.

(** A store whose entry decodes, with a timestamp that cannot be made a
    number. *)
Definition odd_world : World := world_with (JArr []) (cached odd_payload) 1000100.

(** A clock that stands still while the batch is stamped. *)
Definition frozen_world : World :=
  {| view := initial_view; localStorage := ∅; clock := fun _ => 5000000; reads := 0;
     trace := []; render_fault := false |}.

(** A clock set back by one millisecond after its first reading. *)
Definition set_back_world : World :=
  {| view := initial_view; localStorage := ∅;
     clock := fun i => match i with O => 5000001 | S _ => 5000000 end; reads := 0;
     trace := []; render_fault := false |}.

End Demo.

Import Demo.

(** ** The card: what [NewsFeedCard] returns *)

(** The two click handlers of the card: [() => onSelectArticle(article)]
    and [handleLoadMore]. *)
Inductive Handler : Type :=
  | SelectArticle (article : JSValue)
  | LoadMoreClick.

(** The props an element of the card can carry.  A key is kept as React
    keeps it: the string made of the value given, and none when the value is
    [undefined]. *)
Record Attrs : Type := {
  key : option jsstring;
  className : option jsstring;
  onClick : option Handler;
  disabled : option bool
}.

(** The React elements the card is made of: an element with its props and
    children, a fragment, the array a [map] returns, and a value in braces. *)
#[warnings="-register-all"] Inductive VNode : Type :=
  | Element (tag : jsstring) (attrs : Attrs) (children : list VNode)
  | Fragment (children : list VNode)
  | Nodes (items : list VNode)
  | Expr (v : JSValue).

Definition styled (tag class : String.string) (children : list VNode) : VNode :=
  Element (str tag)
    {| key := None; className := Some (str class); onClick := None; disabled := None |}
    children.

Definition renderSkeleton : VNode :=
  styled "div" "flex items-start space-x-4 animate-pulse"
    [styled "div" "flex-1 space-y-3"
       [styled "div" "h-4 bg-gray-200 dark:bg-gray-700 rounded w-1/4" [];
        styled "div" "h-5 bg-gray-200 dark:bg-gray-700 rounded w-3/4" [];
        styled "div" "h-3 bg-gray-200 dark:bg-gray-700 rounded w-full" [];
        styled "div" "h-3 bg-gray-200 dark:bg-gray-700 rounded w-1/2" []]].

(** All the nodes of a tree, the root first. *)
Fixpoint descendants (n : VNode) : list VNode :=
  n :: match n with
       | Element _ _ children => flat_map descendants children
       | Fragment children => flat_map descendants children
       | Nodes items => flat_map descendants items
       | Expr _ => []
       end.

(** The clickable elements of a tree, in document order: their key and
    their handler. *)
Definition clickable (n : VNode) : list (option jsstring * Handler) :=
  omap (fun d => match d with
                 | Element _ a _ =>
                     match onClick a with
                     | Some h => Some (key a, h)
                     | None => None
                     end
                 | _ => None
                 end) (descendants n).

(** The elements of a tree with a given class. *)
Definition has_class (class : String.string) (d : VNode) : bool :=
  match d with
  | Element _ a _ =>
      match className a with
      | Some c => jsstring_eqb c (str class)
      | None => false
      end
  | _ => false
  end.

Definition with_class (class : String.string) (n : VNode) : list VNode :=
  List.filter (has_class class) (descendants n).

(** The buttons of a tree: handler, [disabled] and children of each. *)
Definition buttons (n : VNode) : list (option Handler * option bool * list VNode) :=
  omap (fun d => match d with
                 | Element t a children =>
                     if jsstring_eqb t (str "button")
                     then Some (onClick a, disabled a, children)
                     else None
                 | _ => None
                 end) (descendants n).

(** The placeholders of a tree: the elements that pulse. *)
Definition placeholders (n : VNode) : list VNode :=
  with_class "flex items-start space-x-4 animate-pulse" n.

(** The paragraphs of a tree that show an error. *)
Definition alerts (n : VNode) : list VNode :=
  with_class "text-center text-red-500 py-4" n.

Section Render.
Context `{Platform}.

(** The key React gives an element created with [key={v}]: none for
    [undefined], and otherwise the string [v] coerces to; the coercion is
    made when the element is created, and what it throws leaves the
    component. *)
Definition element_key (v : JSValue) : Completion (option jsstring) :=
  match v with
  | JUndefined => Normal None
  | _ =>
      match ToString v with
      | Throw e => Throw e
      | Normal k => Normal (Some k)
      end
  end.

(** The key of the card of an article, when its id can be made one, and
    the articles a card can be made of. *)
Definition key_of (article : JSValue) : option jsstring :=
  match element_key (id_of article) with
  | Normal k => k
  | Throw _ => None
  end.

Definition renderable (article : JSValue) : Prop :=
  article <> JNull /\ article <> JUndefined /\
  exists k, element_key (id_of article) = Normal k.

(** [<>{Array.from({ length: 3 }).map((_, i) => <div key={i}>...</div>)}</>] *)
Definition skeletons : VNode :=
  Fragment
    [Nodes (map (fun i =>
                   Element (str "div")
                     {| key := Some (Number_toString i); className := None;
                        onClick := None; disabled := None |}
                     [renderSkeleton]) [0; 1; 2])].

(** The callback of [articles.map]: one card for an article. *)
Definition card (article : JSValue) : Completion VNode :=
  match Get article (str "id") with
  | Throw e => Throw e
  | Normal id =>
      match Get article (str "category"), Get article (str "title"),
            Get article (str "summary") with
      | Normal category, Normal title, Normal summary =>
          match element_key id with
          | Throw e => Throw e
          | Normal k =>
              Normal
                (Element (str "div")
                   {| key := k; className := Some (str "group cursor-pointer");
                      onClick := Some (SelectArticle article); disabled := None |}
                   [styled "div" "flex items-start space-x-4"
                      [styled "div" "flex-1"
                         [styled "span" "text-xs font-semibold text-white bg-[#4ECDC4] px-2 py-0.5 rounded-full"
                            [Expr category];
                          styled "h3" "font-semibold mt-2 text-base group-hover:text-[#4ECDC4] transition-colors"
                            [Expr title];
                          styled "p" "text-sm text-gray-500 dark:text-gray-400 mt-1 line-clamp-3"
                            [Expr summary]]]])
          end
      | Throw e, _, _ | _, Throw e, _ | _, _, Throw e => Throw e
      end
  end.

(** [l.map(card)]: the first callback that throws ends the map. *)
Fixpoint cards (l : list JSValue) : Completion (list VNode) :=
  match l with
  | [] => Normal []
  | article :: rest =>
      match card article with
      | Throw e => Throw e
      | Normal c =>
          match cards rest with
          | Throw e => Throw e
          | Normal cs => Normal (c :: cs)
          end
      end
  end.

(** [loading ? skeletons : articles.length > 0 ? articles.map(...) : null] *)
Definition list_area (s : ViewState) : Completion VNode :=
  if loading s then Normal skeletons
  else
    match Get (articles s) (str "length") with
    | Throw e => Throw e
    | Normal len =>
        match ToNumber len with
        | Throw e => Throw e
        | Normal n =>
            if num_gt n (Some 0) then
              match articles s with
              | JArr l =>
                  match cards l with
                  | Throw e => Throw e
                  | Normal cs => Normal (Nodes cs)
                  end
              | _ => Throw TypeError
              end
            else Normal (Expr JNull)
        end
    end.

(** [error && <p ...>{error}</p>]: a falsy error is the value itself. *)
Definition error_area (s : ViewState) : VNode :=
  match error s with
  | None => Expr JNull
  | Some [] => Expr (JStr [])
  | Some e => styled "p" "text-center text-red-500 py-4" [Expr (JStr e)]
  end.

(** [fetchingMore && skeletons] *)
Definition more_area (s : ViewState) : VNode :=
  if fetchingMore s then skeletons else Expr (JBool false).

(** [!loading && <div ...><button ...>...</button></div>] *)
Definition footer (s : ViewState) : VNode :=
  if negb (loading s) then
    styled "div" "flex justify-center mt-6 pt-4 border-t border-gray-200 dark:border-[#4A4A4A]"
      [Element (str "button")
         {| key := None;
            className := Some (str "px-6 py-2 text-sm font-semibold rounded-full disabled:opacity-50 disabled:cursor-not-allowed bg-gray-100 dark:bg-[#4A4A4A] hover:bg-gray-200 dark:hover:bg-opacity-80 transition-colors");
            onClick := Some LoadMoreClick;
            disabled := Some (fetchingMore s) |}
         [Expr (JStr (if fetchingMore s then str "Loading..." else str "More"))]]
  else Expr (JBool false).

(** What the component returns, for the translation [t] and the state [s]. *)
Definition NewsFeedCard (t : jsstring -> jsstring) (s : ViewState) : Completion VNode :=
  match list_area s with
  | Throw e => Throw e
  | Normal area =>
      Normal
        (styled "div" "bg-white dark:bg-[#2A2A2A] rounded-lg shadow-sm p-4 sm:p-6 h-full flex flex-col"
           [styled "h2" "font-poppins text-lg font-semibold mb-4 text-[#2C2C2C] dark:text-white"
              [Expr (JStr (t (str "newsFeed")))];
            styled "div" "space-y-6 flex-grow" [area; error_area s; more_area s];
            footer s])
  end.

End Render.

(** ** An engine that decodes what it encoded *)

Module Codec.

(** The arrays and payloads of the runs below. *)
Definition answers : list JSValue :=
  [ JArr [article "A" "s" "c" "u"];
    JArr [article "B" "s" "c" "u"];
    JArr [] ].

Definition payloads : list JSValue :=
  [ cachePayload 5000002 (JArr [stored 5000001 "A"]);
    cachePayload 5000005 (JArr [stored 5000001 "A"; stored 5000004 "B"]);
    cachePayload 5000001 (JArr []) ].

Definition engine : Platform := {|
  JSON_parse := fun s =>
    match find (fun v => jsstring_eqb (write v) s) (answers ++ payloads) with
    | Some v => Normal v
    | None => Throw (Thrown (str "SyntaxError: Unexpected token"))
    end;
  JSON_stringify := write;
  StringToNumber := fun _ => None;
  Number_toString := fun n => str (NilZero.string_of_int (Z.to_int n));
  TypeError := Thrown (str "TypeError")
|}.

End Codec.

(** ** Worlds and states of the further runs *)

Module Runs.

(** The empty store once a refresh has read the clock for its request. *)
Definition requested_world : World := advance 1 empty_world.

(** A list of one article on display, four readings of the clock later. *)
Definition growing_world : World :=
  advance 4 (world_with (JArr [stored 5000001 "A"]) ∅ 5000000).

(** A store that holds an entry for another language. *)
Definition zh_world : World :=
  world_with (JArr []) {[ cacheKey (str "zh") := str "kept" ]} 5000000.

(** The list of a first batch, two milliseconds after its write. *)
Definition second_batch_world : World :=
  advance 4 (world_with (JArr (stamped requested_world [article "A" "s" "c" "u"])) ∅ 5000000).

(** A view state that shows an error beside its list. *)
Definition failed_view : ViewState :=
  {| articles := JArr [stored 1000000 "Old"]; loading := false; fetchingMore := true;
     error := Some FETCH_FAILED |}.

(** The translation that leaves each key as it is. *)
Definition untranslated : jsstring -> jsstring := fun k => k.

(** A list whose one article has an object with a property [toString] for
    its id. *)
Definition odd_id_view : ViewState :=
  {| articles := JArr [JObj [(str "title", JStr (str "A"));
                             (str "id", JObj [(str "toString", JNum 1)])]];
     loading := false; fetchingMore := false; error := None |}.

End Runs.

(** ** Runs *)

(** The language an event asks a fetch for. *)
Definition event_language (e : Event) : option jsstring :=
  match e with
  | EffectRun l => Some l
  | ClickMore l => Some l
  | Settle _ _ => None
  end.

(** No refresh waits for its request. *)
Definition no_refresh_pending (s : System) : Prop :=
  Forall (fun t => isRefresh t = false) (pending s).

(** ** Proof steps *)

(** Case analysis on the first conditional of the goal. *)
Ltac split_if :=
  match goal with
  | |- context [if ?b then _ else _] => destruct b eqn:?
  end.

(** Run the monad: unfold its operations and the primitives. *)
Ltac run_m :=
  unfold mbind, M_bind, mret, M_ret, lift, throw, try_catch, try_finally,
    setArticles, setLoading, setFetchingMore, setError, getItem, setItem,
    removeItem, Date_now, generateContent, with_view, with_storage; simpl.

(** * Properties *)

(** ** Strings *)

Lemma indexOf_bounds (c : N) (s : jsstring) :
  -1 <= indexOf c s < Z.of_nat (length s).
Proof.
  induction s as [|x s IH]; simpl; [lia|].
  destruct (N.eqb x c); [lia|].
  destruct (Z.ltb_spec (indexOf c s) 0); lia.
Qed.

Lemma lastIndexOf_bounds (c : N) (s : jsstring) :
  -1 <= lastIndexOf c s < Z.of_nat (length s).
Proof.
  induction s as [|x s IH]; simpl; [lia|].
  destruct (Z.leb_spec 0 (lastIndexOf c s)); [lia|].
  destruct (N.eqb x c); lia.
Qed.

Lemma indexOf_absent (c : N) (s : jsstring) :
  indexOf c s = -1 <-> c ∉ s.
Proof.
  induction s as [|x s IH]; simpl.
  - split; [intros _; apply not_elem_of_nil | reflexivity].
  - rewrite not_elem_of_cons. destruct (N.eqb_spec x c) as [->|Hne].
    + split; [lia | intros [Hc _]; congruence].
    + pose proof (indexOf_bounds c s).
      destruct (Z.ltb_spec (indexOf c s) 0).
      * split; [intros _; split; [congruence | apply IH; lia] | reflexivity].
      * split; [lia | intros [_ Hs]; apply IH in Hs; lia].
Qed.

Lemma lastIndexOf_absent (c : N) (s : jsstring) :
  lastIndexOf c s = -1 <-> c ∉ s.
Proof.
  induction s as [|x s IH]; simpl.
  - split; [intros _; apply not_elem_of_nil | reflexivity].
  - rewrite not_elem_of_cons. pose proof (lastIndexOf_bounds c s).
    destruct (Z.leb_spec 0 (lastIndexOf c s)).
    + split; [lia | intros [_ Hs]; apply IH in Hs; lia].
    + destruct (N.eqb_spec x c) as [->|Hne].
      * split; [lia | intros [Hc _]; congruence].
      * split; [intros _; split; [congruence | apply IH; lia] | reflexivity].
Qed.

(** [indexOf] finds the first occurrence. *)
Lemma indexOf_first (c : N) (s : jsstring) :
  0 <= indexOf c s ->
  exists pre post,
    s = pre ++ c :: post /\ (c ∉ pre) /\ Z.of_nat (length pre) = indexOf c s.
Proof.
  induction s as [|x s IH]; simpl; [lia|].
  destruct (N.eqb_spec x c) as [->|Hne].
  - intros _. exists [], s. split; [reflexivity|]. split; [apply not_elem_of_nil | reflexivity].
  - destruct (Z.ltb_spec (indexOf c s) 0); [lia|]. intros _.
    destruct IH as (pre & post & -> & Hpre & Hlen); [lia|].
    exists (x :: pre), post. split; [reflexivity|]. split.
    + rewrite not_elem_of_cons. split; [congruence | exact Hpre].
    + simpl length. lia.
Qed.

(** [lastIndexOf] finds the last occurrence. *)
Lemma lastIndexOf_last (c : N) (s : jsstring) :
  0 <= lastIndexOf c s ->
  exists pre post,
    s = pre ++ c :: post /\ (c ∉ post) /\ Z.of_nat (length pre) = lastIndexOf c s.
Proof.
  induction s as [|x s IH]; simpl; [lia|].
  destruct (Z.leb_spec 0 (lastIndexOf c s)).
  - intros _. destruct IH as (pre & post & -> & Hpost & Hlen); [lia|].
    exists (x :: pre), post. split; [reflexivity|]. split; [exact Hpost|].
    simpl length. lia.
  - destruct (N.eqb_spec x c) as [->|Hne]; [|lia]. intros _.
    exists [], s. split; [reflexivity|]. split; [|reflexivity].
    apply lastIndexOf_absent. pose proof (lastIndexOf_bounds c s). lia.
Qed.

Lemma substring_middle (pre mid post : jsstring) :
  substring (pre ++ mid ++ post) (Z.of_nat (length pre))
            (Z.of_nat (length pre + length mid)) = mid.
Proof.
  unfold substring. rewrite !length_app.
  match goal with
  | |- take (Z.to_nat ?a) (drop (Z.to_nat ?b) _) = _ =>
      replace (Z.to_nat a) with (length mid) by lia;
      replace (Z.to_nat b) with (length pre) by lia
  end.
  rewrite drop_app_length. apply take_app_length.
Qed.

(** The slice from the first [c] to the last [d], both included. *)
Lemma slice_between (c d : N) (s : jsstring) :
  c <> d ->
  0 <= indexOf c s <= lastIndexOf d s ->
  exists pre mid post,
    s = pre ++ c :: mid ++ d :: post /\ (c ∉ pre) /\ (d ∉ post) /\
    substring s (indexOf c s) (lastIndexOf d s + 1) = c :: mid ++ [d].
Proof.
  intros Hcd [Hi Hij].
  destruct (indexOf_first c s Hi) as (pre & post1 & Hs1 & Hpre & Hlen1).
  destruct (lastIndexOf_last d s) as (pre2 & post & Hs2 & Hpost & Hlen2); [lia|].
  assert (Hle : (length pre <= length pre2)%nat) by lia.
  assert (Hpre2 : pre2 = pre ++ drop (length pre) pre2).
  { rewrite <- (take_drop (length pre) pre2) at 1. f_equal.
    assert (Ht : take (length pre) s = pre) by (rewrite Hs1; apply take_app_length).
    rewrite <- Ht at 2. rewrite Hs2. rewrite take_app_le by lia. reflexivity. }
  set (rest := drop (length pre) pre2) in *.
  assert (Hpost1 : c :: post1 = rest ++ d :: post).
  { apply (app_inv_head pre). rewrite <- Hs1, Hs2, Hpre2 at 1.
    rewrite <- app_assoc. reflexivity. }
  destruct rest as [|x mid].
  - simpl in Hpost1. congruence.
  - simpl in Hpost1. injection Hpost1 as <- Hpost1.
    exists pre, mid, post. split; [|split; [exact Hpre | split; [exact Hpost|]]].
    + rewrite Hs2, Hpre2, <- app_assoc. reflexivity.
    + rewrite <- Hlen1, <- Hlen2.
      assert (Hs : s = pre ++ (c :: mid ++ [d]) ++ post).
      { rewrite Hs2, Hpre2, <- !app_assoc. simpl. rewrite <- app_assoc. reflexivity. }
      rewrite Hs at 1.
      replace (Z.of_nat (length pre2) + 1)
        with (Z.of_nat (length pre + length (c :: mid ++ [d]))).
      * apply substring_middle.
      * rewrite Hpre2. rewrite !length_app. simpl. rewrite length_app. simpl. lia.
Qed.

Lemma trimStart_suffix (s : jsstring) : exists pre, s = pre ++ trimStart s.
Proof.
  induction s as [|c s [pre IH]]; simpl.
  - exists []. reflexivity.
  - destruct (is_space c).
    + exists (c :: pre). simpl. f_equal. exact IH.
    + exists []. reflexivity.
Qed.

(** [trim] only removes code units, at both ends. *)
Lemma trim_inside (t : jsstring) : exists pre post, t = pre ++ trim t ++ post.
Proof.
  unfold trim, trimEnd.
  destruct (trimStart_suffix t) as [pre Hpre].
  destruct (trimStart_suffix (rev (trimStart t))) as [post Hpost].
  exists pre, (rev post).
  rewrite <- rev_app_distr, <- Hpost, rev_involutive. exact Hpre.
Qed.

Lemma trim_elem_of (c : N) (t : jsstring) : c ∈ trim t -> c ∈ t.
Proof.
  intros Hc. destruct (trim_inside t) as (pre & post & Ht). rewrite Ht.
  rewrite !elem_of_app. tauto.
Qed.

(** ** The steps of [fetchNews] *)

Section Steps.
Context `{Platform}.

Lemma non_empty_array (l : list JSValue) : non_empty (JArr l) <-> l <> [].
Proof.
  unfold non_empty. simpl. split.
  - intros (len & n & [= <-] & [= <-] & Hn). simpl in Hn. intros ->. discriminate.
  - intros Hl. eexists _, _. split; [reflexivity|]. split; [reflexivity|]. simpl.
    destruct l; [congruence|]. reflexivity.
Qed.

(** A load of more articles goes straight to the request. *)
Lemma fetchNews_start_more (L : jsstring) (w : World) :
  fetchNews_start false L w =
  (Normal true,
   {| view := {| articles := articles (view w); loading := loading (view w);
                 fetchingMore := true; error := None |};
      localStorage := localStorage w; clock := clock w; reads := S (reads w);
      trace := trace w ++ [Query L (clock w (reads w))];
      render_fault := render_fault w |}).
Proof. reflexivity. Qed.

(** The map stamps each article with the clock reading of its turn. *)
Lemma map_with_id_from (l : list JSValue) (index : nat) (w : World) :
  map_with_id l index w =
  (Normal (imap (fun i article =>
             JObj (set_prop (str "id")
                     (JNum (clock w (i + reads w)%nat + Z.of_nat (index + i)))
                     (spread_props article))) l),
   advance (length l) w).
Proof.
  revert index w. induction l as [|a l IH]; intros index w.
  - simpl. unfold mret, M_ret, advance. destruct w; reflexivity.
  - simpl. unfold with_id. run_m. rewrite IH. simpl.
    rewrite !Nat.add_0_r. f_equal.
    + f_equal. f_equal. apply imap_ext. intros i x _. simpl.
      repeat f_equal; lia.
    + unfold advance. simpl. f_equal. lia.
Qed.

Lemma newArticlesWithIds_array (l : list JSValue) (w : World) :
  newArticlesWithIds (JArr l) w = (Normal (stamped w l), advance (length l) w).
Proof. simpl. rewrite map_with_id_from. reflexivity. Qed.

(** The outer [try] either throws before it touches anything, or runs
    [on_success] on the stamped batch. *)
Lemma after_await_fetched (r : bool) (key : jsstring) (settled : Completion Response) (w : World) :
  after_await r key settled w =
  match fetched settled with
  | Throw e => (Throw e, w)
  | Normal l => on_success r key (stamped w l) (advance (length l) w)
  end.
Proof.
  unfold after_await, fetched. run_m.
  destruct settled as [response|e]; [|reflexivity].
  destruct (parse_response (text response)) as [v|e]; [|reflexivity].
  destruct v; try reflexivity.
  rewrite newArticlesWithIds_array. reflexivity.
Qed.

(** A refresh that finds a fresh, non-empty payload adopts it and returns. *)
Lemma fetchNews_start_hit (L data : jsstring) (props : list (jsstring * JSValue))
    (ts : Z) (cachedArticles : list JSValue) (w : World) :
  localStorage w !! cacheKey L = Some data ->
  data <> [] ->
  JSON_parse data = Normal (JObj props) ->
  lookup_prop (str "timestamp") props = JNum ts ->
  lookup_prop (str "articles") props = JArr cachedArticles ->
  clock w (reads w) - ts < CACHE_DURATION ->
  cachedArticles <> [] ->
  fetchNews_start true L w =
  (Normal false,
   {| view := {| articles := JArr cachedArticles; loading := false;
                 fetchingMore := fetchingMore (view w); error := None |};
      localStorage := localStorage w; clock := clock w; reads := S (reads w);
      trace := trace w; render_fault := render_fault w |}).
Proof.
  intros Hget Hdata Hparse Hts Harts Hfresh Hne.
  unfold fetchNews_start, before_fetch. run_m. rewrite Hget.
  destruct data as [|c data]; [congruence|]. simpl.
  unfold use_fresh_cache. run_m. rewrite Hparse. simpl. rewrite Hts, Harts. simpl.
  destruct (Z.ltb_spec (clock w (reads w) - ts) CACHE_DURATION); [|lia].
  destruct cachedArticles; [congruence|]. reflexivity.
Qed.

(** A refresh that finds a parseable payload that is stale or empty leaves
    it where it is and sends the request. *)
Lemma fetchNews_start_miss (L data : jsstring) (props : list (jsstring * JSValue))
    (ts : Z) (cachedArticles : list JSValue) (w : World) :
  localStorage w !! cacheKey L = Some data ->
  data <> [] ->
  JSON_parse data = Normal (JObj props) ->
  lookup_prop (str "timestamp") props = JNum ts ->
  lookup_prop (str "articles") props = JArr cachedArticles ->
  CACHE_DURATION <= clock w (reads w) - ts \/ cachedArticles = [] ->
  fetchNews_start true L w =
  (Normal true,
   {| view := {| articles := articles (view w); loading := true;
                 fetchingMore := fetchingMore (view w); error := None |};
      localStorage := localStorage w; clock := clock w; reads := S (S (reads w));
      trace := trace w ++ [Query L (clock w (S (reads w)))];
      render_fault := render_fault w |}).
Proof.
  intros Hget Hdata Hparse Hts Harts Hold.
  unfold fetchNews_start, before_fetch. run_m. rewrite Hget.
  destruct data as [|c data]; [congruence|]. simpl.
  unfold use_fresh_cache. run_m. rewrite Hparse. simpl. rewrite Hts, Harts. simpl.
  destruct (Z.ltb_spec (clock w (reads w) - ts) CACHE_DURATION) as [Hlt|Hge].
  - destruct Hold as [Hold| ->]; [lia|]. reflexivity.
  - reflexivity.
Qed.


(** How the read of the cache before the fetch can end. *)
Lemma use_fresh_cache_cases (data : jsstring) (w : World) :
  match use_fresh_cache data w with
  | (Normal true, w') =>
      exists parsed a,
        JSON_parse data = Normal parsed /\
        Get parsed (str "articles") = Normal a /\
        non_empty a /\
        w' = {| view := {| articles := a; loading := false;
                           fetchingMore := fetchingMore (view w); error := None |};
                localStorage := localStorage w; clock := clock w;
                reads := S (reads w); trace := trace w;
                render_fault := render_fault w |}
  | (Normal false, w') => w' = advance 1 w
  | (Throw e, w') =>
      read_throws data (clock w (reads w)) /\ (w' = w \/ w' = advance 1 w)
  end.
Proof.
  unfold use_fresh_cache, read_throws. run_m.
  destruct (JSON_parse data) as [parsed|e]; [|split; [exact I | left; reflexivity]].
  destruct (Get parsed (str "timestamp")) as [ts|e] eqn:Ets;
    [|split; [exact I | left; reflexivity]].
  destruct (Get parsed (str "articles")) as [a|e] eqn:Ea;
    [|split; [exact I | left; reflexivity]].
  destruct (ToNumber ts) as [stamp|e] eqn:Hstamp; [|split; [exact I | right; reflexivity]].
  split_if; [|reflexivity].
  destruct (Get a (str "length")) as [len|e] eqn:Hlen;
    [|split; [split; [reflexivity | exact I] | right; reflexivity]].
  destruct (ToNumber len) as [n|e] eqn:Hn.
  - split_if; [|reflexivity].
    exists parsed, a. split; [reflexivity|]. split; [exact Ea|].
    split; [exists len, n; split; [exact Hlen | split; assumption] | reflexivity].
  - split; [|right; reflexivity]. split; [reflexivity|]. exists e. reflexivity.
Qed.

(** A read that throws: the converse of the last case. *)
Lemma use_fresh_cache_throws (data : jsstring) (w : World) :
  read_throws data (clock w (reads w)) ->
  exists e w', use_fresh_cache data w = (Throw e, w').
Proof.
  unfold use_fresh_cache, read_throws. run_m.
  destruct (JSON_parse data) as [parsed|e]; [|intros _; eexists _, _; reflexivity].
  destruct (Get parsed (str "timestamp")) as [ts|e];
    [|intros _; eexists _, _; reflexivity].
  destruct (Get parsed (str "articles")) as [a|e];
    [|intros _; eexists _, _; reflexivity].
  destruct (ToNumber ts) as [stamp|e]; [|intros _; eexists _, _; reflexivity].
  intros [Hfresh Hlen]. rewrite Hfresh.
  destruct (Get a (str "length")) as [len|e]; [|eexists _, _; reflexivity].
  destruct Hlen as [e ->]. eexists _, _. reflexivity.
Qed.

(** A refresh that finds a corrupt entry removes it and sends the request. *)
Lemma fetchNews_start_corrupt (L : jsstring) (w : World) :
  corrupt w (cacheKey L) ->
  exists w1 date,
    fetchNews_start true L w = (Normal true, w1) /\
    trace w1 = trace w ++ [RemoveItem (cacheKey L); Query L date] /\
    localStorage w1 = delete (cacheKey L) (localStorage w) /\
    articles (view w1) = articles (view w).
Proof.
  intros (data & Hget & Hdata & Hthrows).
  unfold fetchNews_start, before_fetch. run_m. rewrite Hget.
  destruct data as [|c data]; [congruence|]. simpl.
  match goal with
  | |- context [use_fresh_cache ?d ?w0] =>
      pose proof (use_fresh_cache_cases d w0) as Hc;
      destruct (use_fresh_cache_throws d w0 Hthrows) as (e & w' & Huse);
      rewrite Huse in Hc |- *
  end.
  simpl in Hc. destruct Hc as [_ [-> | ->]];
    (eexists _, _; split; [reflexivity|]; simpl;
     split; [rewrite <- app_assoc; reflexivity|]; split; reflexivity).
Qed.

(** How a refresh can reach its [await], or return before it. *)
Lemma fetchNews_start_refresh (L : jsstring) (w : World) :
  exists (b : bool) (w' : World),
    fetchNews_start true L w = (Normal b, w') /\
    clock w' = clock w /\ render_fault w' = render_fault w /\
    fetchingMore (view w') = fetchingMore (view w) /\
    error (view w') = None /\
    ((b = false /\ trace w' = trace w /\ localStorage w' = localStorage w /\
      loading (view w') = false /\
      exists a, usable (localStorage w) (cacheKey L) a /\ articles (view w') = a)
     \/ (b = true /\ articles (view w') = articles (view w) /\
         loading (view w') = true /\
         ((localStorage w' = localStorage w /\
           exists t, trace w' = trace w ++ [Query L t])
          \/ (corrupt w (cacheKey L) /\
              localStorage w' = delete (cacheKey L) (localStorage w) /\
              exists t, trace w' = trace w ++ [RemoveItem (cacheKey L); Query L t])))).
Proof.
  unfold fetchNews_start, before_fetch. run_m.
  destruct (localStorage w !! cacheKey L) as [[|c data]|] eqn:Hget; simpl.
  - eexists _, _. split; [reflexivity|]. simpl. repeat split.
    right. repeat split. left. split; [reflexivity|]. eexists; reflexivity.
  - match goal with
    | |- context [use_fresh_cache ?d ?w0] =>
        pose proof (use_fresh_cache_cases d w0) as Hc;
        destruct (use_fresh_cache d w0) as [[[|]|e] w1] eqn:Huse
    end; simpl in Hc.
    + destruct Hc as (parsed & a & Hparse & Ha & Hn & ->).
      eexists _, _. split; [reflexivity|]. simpl. repeat split.
      left. repeat split. exists a. split; [|reflexivity].
      exists (c :: data), parsed. repeat split; try assumption. congruence.
    + subst w1. eexists _, _. split; [reflexivity|]. simpl. repeat split.
      right. repeat split. left. split; [reflexivity|]. eexists; reflexivity.
    + destruct Hc as [Hthrows Hw1].
      assert (Hcor : corrupt w (cacheKey L)).
      { exists (c :: data). split; [exact Hget|]. split; [congruence | exact Hthrows]. }
      destruct Hw1 as [->| ->]; (eexists _, _; split; [reflexivity|]; simpl; repeat split;
        right; repeat split; right; split; [exact Hcor|]; split; [reflexivity|];
        rewrite <- app_assoc; eexists; reflexivity).
  - eexists _, _. split; [reflexivity|]. simpl. repeat split.
    right. repeat split. left. split; [reflexivity|]. eexists; reflexivity.
Qed.

Lemma stale_articles_usable (st : gmap jsstring jsstring) (key : jsstring) (a : JSValue) :
  stale_articles st key = Some a <-> usable st key a.
Proof.
  unfold stale_articles, usable, non_empty. split.
  - destruct (st !! key) as [[|c data]|] eqn:Hget; cbn [truthy]; try discriminate.
    destruct (JSON_parse (c :: data)) as [parsed|e] eqn:Hparse; [|discriminate].
    destruct (Get parsed (str "articles")) as [a'|e] eqn:Ha; [|discriminate].
    destruct (Get a' (str "length")) as [len|e] eqn:Hlen; [|discriminate].
    destruct (ToNumber len) as [n|e] eqn:Hn; [|discriminate].
    destruct (num_gt n (Some 0)) eqn:Hgt; [|discriminate].
    intros [= <-]. exists (c :: data), parsed. repeat split; try assumption; [congruence|].
    exists len, n. split; [exact Hlen|]. split; assumption.
  - intros (data & parsed & Hget & Hdata & Hparse & Ha & len & n & Hlen & Hn & Hgt).
    rewrite Hget. destruct data as [|c data]; [congruence|]. cbn [truthy].
    rewrite Hparse, Ha, Hlen, Hn, Hgt. reflexivity.
Qed.

(** The outer [catch] of a refresh: stale articles if the store has some,
    the hardcoded ones otherwise, and the message in both cases. *)
Lemma on_failure_refresh (key : jsstring) (err : Exn) (errString : jsstring) (w : World) :
  toString err = Normal errString ->
  on_failure true key err w =
  (Normal tt,
   {| view := {| articles := default FALLBACK_ARTICLES (stale_articles (localStorage w) key);
                 loading := loading (view w);
                 fetchingMore := fetchingMore (view w);
                 error := Some (userMessage errString) |};
      localStorage := localStorage w; clock := clock w; reads := reads w;
      trace := trace w; render_fault := render_fault w |}).
Proof.
  intros Hs. unfold on_failure, stale_articles, userMessage. run_m. rewrite Hs.
  destruct (localStorage w !! key) as [[|c data]|]; simpl; try reflexivity.
  unfold use_stale_cache. run_m.
  destruct (JSON_parse (c :: data)) as [parsed|e]; [|reflexivity].
  destruct (Get parsed (str "articles")) as [a|e]; [|reflexivity].
  destruct (Get a (str "length")) as [len|e]; [|reflexivity].
  destruct (ToNumber len) as [[y|]|e]; [destruct (0 <? y)| |]; reflexivity.
Qed.

(** An error without string form leaves the outer [catch] as what its
    [toString()] throws, before the handler touches anything. *)
Lemma on_failure_unprintable (r : bool) (key : jsstring) (err thrown : Exn) (w : World) :
  toString err = Throw thrown ->
  on_failure r key err w = (Throw thrown, w).
Proof. intros Hs. unfold on_failure. run_m. rewrite Hs. reflexivity. Qed.

Lemma fetchNews_resume_refresh_failed (L : jsstring) (settled : Completion Response)
    (err : Exn) (errString : jsstring) (w : World) :
  fetched settled = Throw err ->
  toString err = Normal errString ->
  fetchNews_resume true L settled w =
  (Normal tt,
   {| view := {| articles := default FALLBACK_ARTICLES
                               (stale_articles (localStorage w) (cacheKey L));
                 loading := false;
                 fetchingMore := fetchingMore (view w);
                 error := Some (userMessage errString) |};
      localStorage := localStorage w; clock := clock w; reads := reads w;
      trace := trace w; render_fault := render_fault w |}).
Proof.
  intros Hf Hs. unfold fetchNews_resume, try_finally, try_catch.
  rewrite after_await_fetched, Hf, (on_failure_refresh _ _ _ _ Hs). reflexivity.
Qed.

Lemma fetchNews_resume_more_failed (L : jsstring) (settled : Completion Response)
    (err : Exn) (errString : jsstring) (w : World) :
  fetched settled = Throw err ->
  toString err = Normal errString ->
  fetchNews_resume false L settled w =
  (Normal tt,
   {| view := {| articles := articles (view w);
                 loading := loading (view w);
                 fetchingMore := false;
                 error := Some (moreMessage errString) |};
      localStorage := localStorage w; clock := clock w; reads := reads w;
      trace := trace w; render_fault := render_fault w |}).
Proof.
  intros Hf Hs. unfold fetchNews_resume, try_finally, try_catch.
  rewrite after_await_fetched, Hf. unfold on_failure. run_m. rewrite Hs. reflexivity.
Qed.

(** A failed fetch whose error has no string form: the handler throws, the
    [finally] block clears the flag of the mode, and the exception leaves
    [fetchNews]. *)
Lemma fetchNews_resume_unprintable (r : bool) (L : jsstring) (settled : Completion Response)
    (err thrown : Exn) (w : World) :
  fetched settled = Throw err ->
  toString err = Throw thrown ->
  fetchNews_resume r L settled w =
  (Throw thrown,
   {| view := {| articles := articles (view w);
                 loading := if r then false else loading (view w);
                 fetchingMore := if r then fetchingMore (view w) else false;
                 error := error (view w) |};
      localStorage := localStorage w; clock := clock w; reads := reads w;
      trace := trace w; render_fault := render_fault w |}).
Proof.
  intros Hf Hs. unfold fetchNews_resume, try_finally, try_catch.
  rewrite after_await_fetched, Hf, (on_failure_unprintable _ _ _ _ _ Hs).
  destruct r; reflexivity.
Qed.

Lemma fetchNews_resume_refresh_ok (L : jsstring) (settled : Completion Response)
    (l : list JSValue) (w : World) :
  fetched settled = Normal l ->
  let now := clock w (length l + reads w)%nat in
  let payload := JSON_stringify (cachePayload now (JArr (stamped w l))) in
  fetchNews_resume true L settled w =
  (Normal tt,
   {| view := {| articles := JArr (stamped w l);
                 loading := false;
                 fetchingMore := fetchingMore (view w);
                 error := error (view w) |};
      localStorage := <[cacheKey L := payload]> (localStorage w);
      clock := clock w; reads := S (length l + reads w);
      trace := trace w ++ [SetItem (cacheKey L) payload];
      render_fault := render_fault w |}).
Proof.
  intros Hf. unfold fetchNews_resume, try_finally, try_catch.
  rewrite after_await_fetched, Hf. reflexivity.
Qed.

Lemma fetchNews_resume_more_ok (L : jsstring) (settled : Completion Response)
    (l prev : list JSValue) (w : World) :
  fetched settled = Normal l ->
  spread_elements (articles (view w)) = Normal prev ->
  let now := clock w (length l + reads w)%nat in
  let payload := JSON_stringify (cachePayload now (JArr (prev ++ stamped w l))) in
  fetchNews_resume false L settled w =
  (Normal tt,
   {| view := {| articles := JArr (prev ++ stamped w l);
                 loading := loading (view w);
                 fetchingMore := false;
                 error := error (view w) |};
      localStorage := <[cacheKey L := payload]> (localStorage w);
      clock := clock w; reads := S (length l + reads w);
      trace := trace w ++ [SetItem (cacheKey L) payload];
      render_fault := render_fault w |}).
Proof.
  intros Hf Hprev. unfold fetchNews_resume, try_finally, try_catch.
  rewrite after_await_fetched, Hf. unfold on_success, setArticles_with. run_m.
  rewrite Hprev. reflexivity.
Qed.

(** A list that cannot be spread makes the updater throw inside React: the
    task still ends normally, nothing is written. *)
Lemma fetchNews_resume_more_fault (L : jsstring) (settled : Completion Response)
    (l : list JSValue) (e : Exn) (w : World) :
  fetched settled = Normal l ->
  spread_elements (articles (view w)) = Throw e ->
  fetchNews_resume false L settled w =
  (Normal tt,
   {| view := {| articles := articles (view w);
                 loading := loading (view w);
                 fetchingMore := false;
                 error := error (view w) |};
      localStorage := localStorage w;
      clock := clock w; reads := (length l + reads w)%nat;
      trace := trace w;
      render_fault := true |}).
Proof.
  intros Hf Hprev. unfold fetchNews_resume, try_finally, try_catch.
  rewrite after_await_fetched, Hf. unfold on_success, setArticles_with. run_m.
  rewrite Hprev. reflexivity.
Qed.

End Steps.

(** ** The claims *)

Section Claims.
Context `{Platform}.

Lemma messages_distinct :
  FETCH_RATE_LIMITED <> FETCH_FAILED /\ MORE_RATE_LIMITED <> MORE_FAILED.
Proof. split; intros Heq; vm_compute in Heq; congruence. Qed.

Lemma isRateLimitError_markers (s : jsstring) :
  isRateLimitError s = true <->
  includes (str "429") s = true \/ includes (str "RESOURCE_EXHAUSTED") s = true.
Proof. unfold isRateLimitError. apply orb_true_iff. Qed.

(** How a task can end once its request has settled. *)
Lemma fetchNews_resume_cases (r : bool) (L : jsstring) (settled : Completion Response)
    (w : World) :
  exists c w',
    fetchNews_resume r L settled w = (c, w') /\
    fetchingMore (view w') = (if r then fetchingMore (view w) else false) /\
    ((exists err errString,
        fetched settled = Throw err /\ toString err = Normal errString /\
        c = Normal tt /\
        trace w' = trace w /\ localStorage w' = localStorage w /\
        error (view w') =
          Some (if r then userMessage errString else moreMessage errString) /\
        render_fault w' = render_fault w)
     \/ (exists l v,
          fetched settled = Normal l /\ c = Normal tt /\
          trace w' = trace w ++ [SetItem (cacheKey L) v] /\
          localStorage w' = <[cacheKey L := v]> (localStorage w) /\
          error (view w') = error (view w) /\
          render_fault w' = render_fault w)
     \/ (exists l e,
          fetched settled = Normal l /\ c = Normal tt /\ r = false /\
          spread_elements (articles (view w)) = Throw e /\
          trace w' = trace w /\ localStorage w' = localStorage w /\
          error (view w') = error (view w) /\
          render_fault w' = true)
     \/ (exists err thrown,
          fetched settled = Throw err /\ toString err = Throw thrown /\
          c = Throw thrown /\
          trace w' = trace w /\ localStorage w' = localStorage w /\
          error (view w') = error (view w) /\
          articles (view w') = articles (view w) /\
          render_fault w' = render_fault w)).
Proof.
  destruct (fetched settled) as [l|err] eqn:Hf.
  - destruct r.
    + eexists _, _. split; [apply (fetchNews_resume_refresh_ok _ _ _ _ Hf)|].
      simpl. split; [reflexivity|]. right. left. eexists _, _. repeat split.
    + destruct (spread_elements (articles (view w))) as [prev|e] eqn:Hprev.
      * eexists _, _. split; [apply (fetchNews_resume_more_ok _ _ _ _ _ Hf Hprev)|].
        simpl. split; [reflexivity|]. right. left. eexists _, _. repeat split.
      * eexists _, _. split; [apply (fetchNews_resume_more_fault _ _ _ _ _ Hf Hprev)|].
        simpl. split; [reflexivity|]. right. right. left. eexists _, _. repeat split.
  - destruct (toString err) as [errString|thrown] eqn:Hs.
    + destruct r.
      * eexists _, _. split; [apply (fetchNews_resume_refresh_failed _ _ _ _ _ Hf Hs)|].
        simpl. split; [reflexivity|]. left. eexists _, _. repeat split. exact Hs.
      * eexists _, _. split; [apply (fetchNews_resume_more_failed _ _ _ _ _ Hf Hs)|].
        simpl. split; [reflexivity|]. left. eexists _, _. repeat split. exact Hs.
    + eexists _, _. split; [apply (fetchNews_resume_unprintable _ _ _ _ _ _ Hf Hs)|].
      simpl. split; [destruct r; reflexivity|]. right. right. right.
      eexists _, _. repeat split. exact Hs.
Qed.

(** C1. For every language, when the store holds a parseable payload for it
    whose timestamp is less than 15 minutes old and whose article list is
    not empty, a refresh sends no request (the trace is unchanged), puts
    exactly the cached articles in the view state, sets the error to null
    and clears the loading flag. *)
Theorem refresh_served_from_fresh_cache
    (L data : jsstring) (props : list (jsstring * JSValue)) (ts : Z)
    (cachedArticles : list JSValue) (settled : Completion Response) (w : World) :
  localStorage w !! cacheKey L = Some data ->
  data <> [] ->
  JSON_parse data = Normal (JObj props) ->
  lookup_prop (str "timestamp") props = JNum ts ->
  lookup_prop (str "articles") props = JArr cachedArticles ->
  clock w (reads w) - ts < CACHE_DURATION ->
  cachedArticles <> [] ->
  exists w',
    fetchNews true L settled w = (Normal tt, w') /\
    trace w' = trace w /\
    articles (view w') = JArr cachedArticles /\
    error (view w') = None /\
    loading (view w') = false.
Proof.
  intros Hget Hdata Hparse Hts Harts Hfresh Hne.
  unfold fetchNews, mbind, M_bind.
  rewrite (fetchNews_start_hit L data props ts cachedArticles w) by assumption.
  eexists. split; [reflexivity|]. repeat split.
Qed.

(** C2. When the fetch of a refresh fails with [err], whose string form is
    [errString], the error becomes the user-facing message, which has the
    rate-limit wording exactly when [errString] contains 429 or
    RESOURCE_EXHAUSTED; the articles become those of the cached payload when
    the store holds a parseable one with a non-empty list, fresh or not, and
    the two hardcoded articles when it holds no such payload. *)
Theorem failed_refresh_falls_back
    (L : jsstring) (settled : Completion Response) (err : Exn) (errString : jsstring)
    (w : World) :
  fetched settled = Throw err ->
  toString err = Normal errString ->
  exists w',
    fetchNews_resume true L settled w = (Normal tt, w') /\
    error (view w') = Some (userMessage errString) /\
    (userMessage errString = FETCH_RATE_LIMITED \/ userMessage errString = FETCH_FAILED) /\
    (userMessage errString = FETCH_RATE_LIMITED <->
       includes (str "429") errString = true \/
       includes (str "RESOURCE_EXHAUSTED") errString = true) /\
    (forall data props cachedArticles,
       localStorage w !! cacheKey L = Some data -> data <> [] ->
       JSON_parse data = Normal (JObj props) ->
       lookup_prop (str "articles") props = JArr cachedArticles ->
       cachedArticles <> [] ->
       articles (view w') = JArr cachedArticles) /\
    (forall a, usable (localStorage w) (cacheKey L) a -> articles (view w') = a) /\
    ((forall a, ~ usable (localStorage w) (cacheKey L) a) ->
       articles (view w') = FALLBACK_ARTICLES) /\
    (exists first second, FALLBACK_ARTICLES = JArr [first; second]).
Proof.
  intros Hf Hs. eexists. split; [apply (fetchNews_resume_refresh_failed _ _ _ _ _ Hf Hs)|].
  simpl. split; [reflexivity|].
  assert (Husable : forall a, usable (localStorage w) (cacheKey L) a ->
            default FALLBACK_ARTICLES (stale_articles (localStorage w) (cacheKey L)) = a).
  { intros a Ha. apply stale_articles_usable in Ha. rewrite Ha. reflexivity. }
  split; [|split; [|split; [|split; [|split]]]].
  - unfold userMessage. destruct (isRateLimitError errString); auto.
  - rewrite <- isRateLimitError_markers. unfold userMessage.
    destruct (isRateLimitError errString).
    + split; reflexivity.
    + split; [|discriminate]. intros Heq. symmetry in Heq.
      destruct (proj1 messages_distinct Heq).
  - intros data props l Hget Hdata Hparse Harts Hne. apply Husable.
    exists data, (JObj props). repeat split; try assumption.
    + simpl. rewrite Harts. reflexivity.
    + apply non_empty_array. exact Hne.
  - exact Husable.
  - intros Hnone. destruct (stale_articles _ _) as [a|] eqn:Ha; [|reflexivity].
    apply stale_articles_usable in Ha. destruct (Hnone a Ha).
  - eexists _, _. reflexivity.
Qed.

(** C5. When the fetch of a load of more articles fails, whatever the
    error, the article list and the store stay as they were and nothing is
    written; when the error has a string form, the call ends normally and
    the error becomes a short message, with the rate-limit wording exactly
    when the error is a rate-limit one.  This holds from the moment the
    request settles, and so for the whole call. *)
Theorem failed_load_more_keeps_articles
    (L : jsstring) (settled : Completion Response) (err : Exn) (w : World) :
  fetched settled = Throw err ->
  (exists c w',
     fetchNews_resume false L settled w = (c, w') /\
     articles (view w') = articles (view w) /\
     localStorage w' = localStorage w /\
     trace w' = trace w /\
     loading (view w') = loading (view w) /\
     fetchingMore (view w') = false /\
     (forall errString, toString err = Normal errString ->
        c = Normal tt /\ error (view w') = Some (moreMessage errString))) /\
  (exists c w',
     fetchNews false L settled w = (c, w') /\
     articles (view w') = articles (view w) /\
     localStorage w' = localStorage w /\
     trace w' = trace w ++ [Query L (clock w (reads w))] /\
     (forall errString, toString err = Normal errString ->
        c = Normal tt /\ error (view w') = Some (moreMessage errString))) /\
  (forall errString,
     (moreMessage errString = MORE_RATE_LIMITED \/ moreMessage errString = MORE_FAILED) /\
     (moreMessage errString = MORE_RATE_LIMITED <-> isRateLimitError errString = true)).
Proof.
  intros Hf.
  assert (Hresume : forall w0, exists c w',
            fetchNews_resume false L settled w0 = (c, w') /\
            articles (view w') = articles (view w0) /\
            localStorage w' = localStorage w0 /\
            trace w' = trace w0 /\
            loading (view w') = loading (view w0) /\
            fetchingMore (view w') = false /\
            (forall errString, toString err = Normal errString ->
               c = Normal tt /\ error (view w') = Some (moreMessage errString))).
  { intros w0. destruct (toString err) as [errString|thrown] eqn:Hs.
    - eexists _, _. split; [apply (fetchNews_resume_more_failed _ _ _ _ _ Hf Hs)|].
      cbn [view articles localStorage trace loading fetchingMore error].
      do 5 (split; [reflexivity|]). intros s' [= <-]. split; reflexivity.
    - eexists _, _. split; [apply (fetchNews_resume_unprintable _ _ _ _ _ _ Hf Hs)|].
      cbn [view articles localStorage trace loading fetchingMore error].
      do 5 (split; [reflexivity|]). discriminate. }
  split; [|split].
  - apply Hresume.
  - unfold fetchNews, mbind, M_bind. rewrite fetchNews_start_more.
    match goal with
    | |- context [fetchNews_resume false L settled ?w0] =>
        destruct (Hresume w0) as (c & w' & Hr & Ha & Hst & Ht & _ & _ & He)
    end.
    exists c, w'. split; [exact Hr|]. split; [exact Ha|]. split; [exact Hst|].
    split; [exact Ht | exact He].
  - intros errString. split.
    + unfold moreMessage. destruct (isRateLimitError errString); auto.
    + unfold moreMessage. destruct (isRateLimitError errString).
      * split; reflexivity.
      * split; [|discriminate]. intros Heq. symmetry in Heq.
        destruct (proj2 messages_distinct Heq).
Qed.

(** C6. When the fetch of a load of more articles succeeds, the new batch is
    appended after the current list in the view state and the payload of
    the language is rewritten with exactly the combined list and the time
    of the write; a load of more articles never looks at the store and
    always sends a request. *)
Theorem load_more_appends_and_rewrites
    (L : jsstring) (settled : Completion Response) (l prev : list JSValue) (w : World) :
  fetched settled = Normal l ->
  articles (view w) = JArr prev ->
  (exists w' batch now,
     newArticlesWithIds (JArr l) w = (Normal batch, advance (length l) w) /\
     Date_now (advance (length l) w) = (Normal now, advance (S (length l)) w) /\
     fetchNews_resume false L settled w = (Normal tt, w') /\
     articles (view w') = JArr (prev ++ batch) /\
     localStorage w' =
       <[cacheKey L := JSON_stringify (cachePayload now (JArr (prev ++ batch)))]>
         (localStorage w) /\
     fetchingMore (view w') = false) /\
  (forall w0 : World, exists w1,
     fetchNews_start false L w0 = (Normal true, w1) /\
     trace w1 = trace w0 ++ [Query L (clock w0 (reads w0))] /\
     articles (view w1) = articles (view w0) /\
     localStorage w1 = localStorage w0).
Proof.
  intros Hf Hprev. split.
  - assert (Hs : spread_elements (articles (view w)) = Normal prev)
      by (rewrite Hprev; reflexivity).
    eexists _, (stamped w l), _.
    split; [apply newArticlesWithIds_array|].
    split; [reflexivity|].
    split; [apply (fetchNews_resume_more_ok _ _ _ _ _ Hf Hs)|].
    repeat split.
  - intros w0. rewrite fetchNews_start_more. eexists. split; [reflexivity|]. repeat split.
Qed.

Lemma parse_response_throws (response_text : option jsstring) (e : Exn) :
  parse_response response_text = Throw e -> e = Error PARSE_FAILED_MESSAGE.
Proof.
  unfold parse_response. destruct (extract_json response_text); congruence.
Qed.

Lemma parse_failure_messages :
  exists errString,
    toString (Error PARSE_FAILED_MESSAGE) = Normal errString /\
    userMessage errString = FETCH_FAILED /\
    moreMessage errString = MORE_FAILED.
Proof. eexists. split; [reflexivity|]. split; vm_compute; reflexivity. Qed.

(** C3, as the code has it.  The parser trims the text and locates the
    first opening and the last closing bracket.  When either is absent or
    the closing one comes first, the error about the missing array is
    thrown inside the parser's own [try], whose [catch] replaces it; when
    both are there, the parser decodes the slice from the one to the other,
    and a decoding failure is replaced in the same way.  So every failure
    leaves the parser as the error "Failed to parse news data.", also for a
    text without opening bracket, and [fetchNews] turns it into the generic
    message of the view state and ends normally. *)
Theorem parse_failures_surface_as_parse_failed :
  (forall t : jsstring,
     let responseText := trim t in
     let startIndex := indexOf LBRACKET responseText in
     let endIndex := lastIndexOf RBRACKET responseText in
     ((LBRACKET ∉ responseText) \/ (RBRACKET ∉ responseText) \/ endIndex < startIndex ->
        extract_json (Some t) = Throw (Error NO_ARRAY_MESSAGE) /\
        parse_response (Some t) = Throw (Error PARSE_FAILED_MESSAGE)) /\
     (LBRACKET ∈ responseText -> RBRACKET ∈ responseText -> startIndex <= endIndex ->
        exists pre mid post,
          responseText = pre ++ LBRACKET :: mid ++ RBRACKET :: post /\
          (LBRACKET ∉ pre) /\ (RBRACKET ∉ post) /\
          extract_json (Some t) = JSON_parse (LBRACKET :: mid ++ [RBRACKET]) /\
          parse_response (Some t) =
            match JSON_parse (LBRACKET :: mid ++ [RBRACKET]) with
            | Normal articlesData => Normal articlesData
            | Throw _ => Throw (Error PARSE_FAILED_MESSAGE)
            end)) /\
  (forall t : jsstring,
     LBRACKET ∉ t ->
     extract_json (Some t) = Throw (Error NO_ARRAY_MESSAGE) /\
     parse_response (Some t) = Throw (Error PARSE_FAILED_MESSAGE)) /\
  (forall (r : bool) (L : jsstring) (response : Response) (w : World) (e : Exn),
     parse_response (text response) = Throw e ->
     exists w',
       fetchNews_resume r L (Normal response) w = (Normal tt, w') /\
       error (view w') = Some (if r then FETCH_FAILED else MORE_FAILED)).
Proof.
  assert (Hnone : forall t : jsstring,
            (LBRACKET ∉ trim t) \/ (RBRACKET ∉ trim t) \/
            lastIndexOf RBRACKET (trim t) < indexOf LBRACKET (trim t) ->
            extract_json (Some t) = Throw (Error NO_ARRAY_MESSAGE) /\
            parse_response (Some t) = Throw (Error PARSE_FAILED_MESSAGE)).
  { intros t Hcase.
    assert (He : extract_json (Some t) = Throw (Error NO_ARRAY_MESSAGE)).
    { unfold extract_json.
      destruct Hcase as [Hl|[Hr|Hlt]].
      - apply indexOf_absent in Hl. rewrite Hl. reflexivity.
      - apply lastIndexOf_absent in Hr. rewrite Hr. rewrite orb_true_r. reflexivity.
      - destruct (Z.ltb_spec (lastIndexOf RBRACKET (trim t)) (indexOf LBRACKET (trim t)));
          [|lia]. rewrite orb_true_r. reflexivity. }
    split; [exact He|]. unfold parse_response. rewrite He. reflexivity. }
  split; [|split].
  - intros t. cbv zeta. split; [apply Hnone|].
    intros Hl Hr Hle.
    assert (Hi : 0 <= indexOf LBRACKET (trim t)).
    { pose proof (indexOf_bounds LBRACKET (trim t)).
      destruct (Z.eq_dec (indexOf LBRACKET (trim t)) (-1)) as [Heq|]; [|lia].
      apply indexOf_absent in Heq. contradiction. }
    destruct (slice_between LBRACKET RBRACKET (trim t)) as (pre & mid & post & Hs & Hpre & Hpost & Hsub);
      [discriminate | lia |].
    exists pre, mid, post. split; [exact Hs|]. split; [exact Hpre|]. split; [exact Hpost|].
    assert (He : extract_json (Some t) = JSON_parse (LBRACKET :: mid ++ [RBRACKET])).
    { unfold extract_json.
      destruct (Z.eqb_spec (indexOf LBRACKET (trim t)) (-1)); [lia|].
      destruct (Z.eqb_spec (lastIndexOf RBRACKET (trim t)) (-1)); [lia|].
      destruct (Z.ltb_spec (lastIndexOf RBRACKET (trim t)) (indexOf LBRACKET (trim t)));
        [lia|].
      simpl. rewrite Hsub. reflexivity. }
    split; [exact He|]. unfold parse_response. rewrite He. reflexivity.
  - intros t Ht. apply Hnone. left. intros Hin. apply Ht, trim_elem_of, Hin.
  - intros r L response w e Hp.
    pose proof (parse_response_throws _ _ Hp) as ->.
    assert (Hf : fetched (Normal response) = Throw (Error PARSE_FAILED_MESSAGE))
      by (simpl; rewrite Hp; reflexivity).
    destruct parse_failure_messages as (errString & Hs & Hu & Hm).
    destruct r.
    + eexists. split; [apply (fetchNews_resume_refresh_failed _ _ _ _ _ Hf Hs)|].
      simpl. rewrite Hu. reflexivity.
    + eexists. split; [apply (fetchNews_resume_more_failed _ _ _ _ _ Hf Hs)|].
      simpl. rewrite Hm. reflexivity.
Qed.


Lemma loads_in_flight_delete (l : list Task) (i : nat) (t : Task) :
  l !! i = Some t ->
  length (filter (fun t => isRefresh t = false) l) =
  ((if isRefresh t then 0 else 1) +
   length (filter (fun t => isRefresh t = false) (delete i l)))%nat.
Proof.
  revert i. induction l as [|x l IH]; intros i Hi; [discriminate|].
  destruct i as [|i]; simpl in Hi.
  - injection Hi as ->. simpl. rewrite filter_cons.
    destruct (isRefresh t) eqn:Ht; case_decide; try congruence; reflexivity.
  - simpl. rewrite !filter_cons. case_decide; simpl; rewrite (IH i Hi); lia.
Qed.

Lemma loads_in_flight_app (l : list Task) (t : Task) :
  length (filter (fun t => isRefresh t = false) (l ++ [t])) =
  (length (filter (fun t => isRefresh t = false) l) + (if isRefresh t then 0 else 1))%nat.
Proof.
  rewrite filter_app, length_app. f_equal.
  rewrite filter_cons, filter_nil.
  destruct (isRefresh t) eqn:Ht; case_decide; try congruence; reflexivity.
Qed.

(** The flag tells whether a load of more articles waits for its request. *)
Lemma step_keeps_guard (s : System) (e : Event) :
  loads_in_flight s = (if fetchingMore (view (world s)) then 1 else 0)%nat ->
  loads_in_flight (step s e) =
  (if fetchingMore (view (world (step s e))) then 1 else 0)%nat.
Proof.
  unfold loads_in_flight. intros Hinv. destruct e as [L|L|i settled]; cbn [step].
  - unfold start.
    destruct (fetchNews_start_refresh L (world s)) as (b & w' & -> & _ & _ & Hfm & _).
    destruct b; cbn [world pending]; rewrite Hfm; [|exact Hinv].
    rewrite loads_in_flight_app. cbn [isRefresh]. rewrite Nat.add_0_r. exact Hinv.
  - unfold handleLoadMore.
    destruct (fetchingMore (view (world s))) eqn:Hfm; cbn [negb].
    + rewrite Hfm. exact Hinv.
    + unfold start. rewrite fetchNews_start_more. cbn [world pending view fetchingMore].
      rewrite loads_in_flight_app. cbn [isRefresh]. rewrite Hinv. reflexivity.
  - destruct (pending s !! i) as [t|] eqn:Ht; [|exact Hinv]. cbn [world pending].
    destruct (fetchNews_resume_cases (isRefresh t) (language t) settled (world s))
      as (c & w' & -> & Hfm & _).
    cbn [snd]. rewrite Hfm.
    rewrite (loads_in_flight_delete _ _ _ Ht) in Hinv.
    destruct (isRefresh t); simpl in Hinv; [exact Hinv|].
    destruct (fetchingMore (view (world s))); lia.
Qed.

(** C7. A click on "More" while the flag is set changes nothing and sends
    no request; through any sequence of events after the mount, at most one
    load of more articles waits for its request, and exactly one when the
    flag is set; and a load of more articles clears the flag when it ends,
    whatever its request gave, also when it ends by the exception of an
    error without string form. *)
Theorem load_more_guard :
  (forall (L : jsstring) (s : System),
     fetchingMore (view (world s)) = true -> handleLoadMore L s = s) /\
  (forall (w : World) (es : list Event),
     fetchingMore (view w) = false ->
     let s := run (mounted w) es in
     (loads_in_flight s <= 1)%nat /\
     loads_in_flight s = (if fetchingMore (view (world s)) then 1 else 0)%nat) /\
  (forall (L : jsstring) (settled : Completion Response) (w : World),
     exists c w',
       fetchNews_resume false L settled w = (c, w') /\
       fetchingMore (view w') = false /\
       (c = Normal tt \/
        exists err thrown,
          fetched settled = Throw err /\ toString err = Throw thrown /\
          c = Throw thrown)).
Proof.
  split; [|split].
  - intros L s Hfm. unfold handleLoadMore. rewrite Hfm. reflexivity.
  - intros w es Hfm.
    assert (Hrun : forall s,
              loads_in_flight s = (if fetchingMore (view (world s)) then 1 else 0)%nat ->
              loads_in_flight (run s es) =
              (if fetchingMore (view (world (run s es))) then 1 else 0)%nat).
    { unfold run. induction es as [|e es IH]; intros s Hs; [exact Hs|].
      simpl. apply IH, step_keeps_guard, Hs. }
    cbv zeta.
    assert (Hinv : loads_in_flight (run (mounted w) es) =
                   (if fetchingMore (view (world (run (mounted w) es))) then 1 else 0)%nat).
    { apply Hrun. unfold loads_in_flight, mounted. cbn [world pending].
      rewrite Hfm. reflexivity. }
    split; [|exact Hinv].
    rewrite Hinv.
    destruct (fetchingMore (view (world (run (mounted w) es)))); lia.
  - intros L settled w.
    destruct (fetchNews_resume_cases false L settled w) as (c & w' & Hr & Hfm & Hcases).
    exists c, w'. split; [exact Hr|]. split; [exact Hfm|].
    destruct Hcases as [(err & errString & _ & _ & -> & _)
                       |[(l & v & _ & -> & _)
                        |[(l & e & _ & -> & _)
                         |(err & thrown & Hf & Hs & -> & _)]]]; auto.
    right. exists err, thrown. auto.
Qed.





Lemma lookup_set_prop_eq (k : jsstring) (v : JSValue) (props : list (jsstring * JSValue)) :
  lookup_prop k (set_prop k v props) = v.
Proof.
  unfold lookup_prop, jsstring_eqb.
  induction props as [|[k' v'] props IH]; simpl.
  - rewrite bool_decide_eq_true_2 by reflexivity. reflexivity.
  - unfold jsstring_eqb. case_bool_decide as Hk; simpl.
    + rewrite bool_decide_eq_true_2 by reflexivity. reflexivity.
    + rewrite bool_decide_eq_false_2 by exact Hk. exact IH.
Qed.

Lemma lookup_set_prop_ne (k k' : jsstring) (v : JSValue) (props : list (jsstring * JSValue)) :
  k' <> k -> lookup_prop k' (set_prop k v props) = lookup_prop k' props.
Proof.
  intros Hne. unfold lookup_prop, jsstring_eqb.
  induction props as [|[k0 v0] props IH]; simpl.
  - rewrite bool_decide_eq_false_2 by congruence. reflexivity.
  - unfold jsstring_eqb. case_bool_decide as Hk; simpl.
    + subst k0. rewrite !bool_decide_eq_false_2 by congruence. reflexivity.
    + case_bool_decide; [reflexivity | exact IH].
Qed.

Lemma stamped_lookup (w : World) (l : list JSValue) (i : nat) :
  stamped w l !! i =
  (fun article =>
     JObj (set_prop (str "id") (JNum (clock w (i + reads w)%nat + Z.of_nat i))
             (spread_props article))) <$> l !! i.
Proof. unfold stamped. apply list_lookup_imap. Qed.

(** C9, as the code has it.  Each record of a decoded batch gets a numeric
    id, the reading of the clock at its turn plus its index in the batch,
    and keeps every other property of the decoded element as it was, title,
    summary, category and sourceUrl among them.  When the clock does not run
    backwards while the batch is stamped, the ids of the batch are pairwise
    distinct: the index keeps two records apart even within the same
    millisecond. *)
Theorem batch_ids (l : list JSValue) (w : World) :
  exists batch,
    newArticlesWithIds (JArr l) w = (Normal batch, advance (length l) w) /\
    length batch = length l /\
    (forall (i : nat) (article : JSValue),
       l !! i = Some article ->
       exists props now,
         Date_now (advance i w) = (Normal now, advance (S i) w) /\
         batch !! i = Some (JObj props) /\
         lookup_prop (str "id") props = JNum (now + Z.of_nat i) /\
         (forall k, k <> str "id" ->
            lookup_prop k props = lookup_prop k (spread_props article)) /\
         (forall fields, article = JObj fields ->
            forall k,
              k ∈ [str "title"; str "summary"; str "category"; str "sourceUrl"] ->
              lookup_prop k props = lookup_prop k fields)) /\
    ((forall i j : nat,
        (i <= j < length l)%nat ->
        clock w (i + reads w)%nat <= clock w (j + reads w)%nat) ->
     NoDup (map id_of batch)).
Proof.
  exists (stamped w l). split; [apply newArticlesWithIds_array|].
  assert (Hlen : length (stamped w l) = length l) by (unfold stamped; apply length_imap).
  split; [exact Hlen|]. split.
  - intros i article Hi. eexists _, _. split; [reflexivity|].
    split; [rewrite stamped_lookup, Hi; reflexivity|].
    split; [apply lookup_set_prop_eq|]. split.
    + intros k Hk. apply lookup_set_prop_ne, Hk.
    + intros fields -> k Hk. simpl. apply lookup_set_prop_ne.
      intros ->. rewrite !elem_of_cons, elem_of_nil in Hk.
      destruct Hk as [Hk|[Hk|[Hk|[Hk|[]]]]]; vm_compute in Hk; discriminate.
  - intros Hmono. apply NoDup_alt. intros i j x Hi Hj.
    assert (Hid : forall n y, map id_of (stamped w l) !! n = Some y ->
              (n < length l)%nat /\
              y = JNum (clock w (n + reads w)%nat + Z.of_nat n)).
    { intros n y Hn. split.
      - apply lookup_lt_Some in Hn. rewrite length_map, Hlen in Hn. exact Hn.
      - change (map id_of (stamped w l)) with (id_of <$> stamped w l) in Hn.
        rewrite list_lookup_fmap, stamped_lookup in Hn.
        destruct (l !! n); [|discriminate]. simpl in Hn. injection Hn as <-.
        apply lookup_set_prop_eq. }
    destruct (Hid i x Hi) as [Hil Hxi]. destruct (Hid j x Hj) as [Hjl Hxj].
    rewrite Hxi in Hxj. injection Hxj as Heq.
    destruct (Nat.lt_trichotomy i j) as [Hlt|[Heq'|Hgt]]; [|exact Heq'|].
    + pose proof (Hmono i j ltac:(lia)). lia.
    + pose proof (Hmono j i ltac:(lia)). lia.
Qed.

(** C10. A refresh served from a fresh payload leaves the store as it is,
    timestamp included, and so does a refresh whose fetch fails, also when
    it shows stale articles, and whatever the error.  Over a whole call the
    store changes through at most two effects: before the request, the
    removal of the entry of the language, in a refresh that found it
    corrupt, that is, whose read of the entry threw; after the request, the
    write of the entry of the language, when the fetch succeeded.  And a
    refresh does remove every entry it finds corrupt. *)
Theorem cache_written_only_on_success :
  (forall (L data : jsstring) (props : list (jsstring * JSValue)) (ts : Z)
          (cachedArticles : list JSValue) (settled : Completion Response) (w : World),
     localStorage w !! cacheKey L = Some data ->
     data <> [] ->
     JSON_parse data = Normal (JObj props) ->
     lookup_prop (str "timestamp") props = JNum ts ->
     lookup_prop (str "articles") props = JArr cachedArticles ->
     clock w (reads w) - ts < CACHE_DURATION ->
     cachedArticles <> [] ->
     exists w',
       fetchNews true L settled w = (Normal tt, w') /\
       localStorage w' = localStorage w /\ trace w' = trace w) /\
  (forall (L : jsstring) (settled : Completion Response) (err : Exn) (w : World),
     fetched settled = Throw err ->
     exists c w',
       fetchNews_resume true L settled w = (c, w') /\
       localStorage w' = localStorage w /\ trace w' = trace w) /\
  (forall (r : bool) (L : jsstring) (settled : Completion Response) (w : World),
     exists c w',
       fetchNews r L settled w = (c, w') /\
       ((trace w' = trace w /\ localStorage w' = localStorage w)
        \/ exists removed date written,
             trace w' = trace w ++ removed ++ [Query L date] ++ written /\
             localStorage w' = fold_left replay (removed ++ written) (localStorage w) /\
             (removed = [] \/
              (removed = [RemoveItem (cacheKey L)] /\ r = true /\
               corrupt w (cacheKey L))) /\
             (written = [] \/
              exists l v, written = [SetItem (cacheKey L) v] /\
                          fetched settled = Normal l))) /\
  (forall (L : jsstring) (w : World),
     corrupt w (cacheKey L) ->
     exists w1 date,
       fetchNews_start true L w = (Normal true, w1) /\
       trace w1 = trace w ++ [RemoveItem (cacheKey L); Query L date] /\
       localStorage w1 = delete (cacheKey L) (localStorage w)).
Proof.
  split; [|split; [|split]];
    [| | |intros L w Hc;
          destruct (fetchNews_start_corrupt L w Hc) as (w1 & date & Hs & Ht & Hst & _);
          exists w1, date; auto].
  - intros L data props ts l settled w Hget Hdata Hparse Hts Harts Hfresh Hne.
    unfold fetchNews, mbind, M_bind.
    rewrite (fetchNews_start_hit L data props ts l w) by assumption.
    eexists. split; [reflexivity|]. split; reflexivity.
  - intros L settled err w Hf.
    destruct (toString err) as [errString|thrown] eqn:Hs.
    + eexists _, _. split; [apply (fetchNews_resume_refresh_failed _ _ _ _ _ Hf Hs)|].
      split; reflexivity.
    + eexists _, _. split; [apply (fetchNews_resume_unprintable _ _ _ _ _ _ Hf Hs)|].
      split; reflexivity.
  - intros r L settled w.
    assert (Hstart : exists (b : bool) (w1 : World),
              fetchNews_start r L w = (Normal b, w1) /\
              ((b = false /\ trace w1 = trace w /\ localStorage w1 = localStorage w)
               \/ (b = true /\ exists removed date,
                     trace w1 = trace w ++ removed ++ [Query L date] /\
                     localStorage w1 = fold_left replay removed (localStorage w) /\
                     (removed = [] \/
                      (removed = [RemoveItem (cacheKey L)] /\ r = true /\
                       corrupt w (cacheKey L)))))).
    { destruct r.
      - destruct (fetchNews_start_refresh L w)
          as (b & w1 & Hs & _ & _ & _ & _ &
              [(-> & Ht & Hst & _)|(-> & _ & _ & [(Hst & t & Ht)|(Hc & Hst & t & Ht)])]).
        + exists false, w1. split; [exact Hs|]. left. auto.
        + exists true, w1. split; [exact Hs|]. right. split; [reflexivity|].
          exists [], t. split; [exact Ht|]. split; [exact Hst|]. left. reflexivity.
        + exists true, w1. split; [exact Hs|]. right. split; [reflexivity|].
          exists [RemoveItem (cacheKey L)], t. split; [exact Ht|]. split; [exact Hst|].
          right. auto.
      - rewrite fetchNews_start_more. eexists _, _. split; [reflexivity|].
        right. split; [reflexivity|]. exists [], (clock w (reads w)).
        split; [reflexivity|]. split; [reflexivity|]. left. reflexivity. }
    destruct Hstart as (b & w1 & Hs & [(-> & Ht & Hst)|(-> & removed & date & Ht & Hst & Hrem)]);
      unfold fetchNews, mbind, M_bind; rewrite Hs.
    + exists (Normal tt), w1. split; [reflexivity|]. left. split; assumption.
    + destruct (fetchNews_resume_cases r L settled w1) as (c & w' & Hr & _ & Hcases).
      exists c, w'. split; [exact Hr|]. right.
      destruct Hcases as [(err & errString & _ & _ & _ & Ht' & Hst' & _)
                         |[(l & v & Hf & _ & Ht' & Hst' & _)
                          |[(l & e & _ & _ & _ & _ & Ht' & Hst' & _)
                           |(err & thrown & _ & _ & _ & Ht' & Hst' & _)]]].
      * exists removed, date, []. rewrite Ht', Ht, Hst', Hst, !app_nil_r.
        split; [reflexivity|]. split; [reflexivity|]. split; [exact Hrem|]. left. reflexivity.
      * exists removed, date, [SetItem (cacheKey L) v]. rewrite Ht', Ht, Hst', Hst.
        split; [rewrite <- !app_assoc; reflexivity|].
        split; [rewrite fold_left_app; reflexivity|]. split; [exact Hrem|].
        right. exists l, v. split; [reflexivity | exact Hf].
      * exists removed, date, []. rewrite Ht', Ht, Hst', Hst, !app_nil_r.
        split; [reflexivity|]. split; [reflexivity|]. split; [exact Hrem|]. left. reflexivity.
      * exists removed, date, []. rewrite Ht', Ht, Hst', Hst, !app_nil_r.
        split; [reflexivity|]. split; [reflexivity|]. split; [exact Hrem|]. left. reflexivity.
Qed.

End Claims.

(** ** The claims on concrete runs *)


Example old_payload_text :
  write old_payload =
  dq (str "{'timestamp':1000000,'articles':[{'title':'Old','summary':'s','category':'c','sourceUrl':'u','id':1000000}]}").
Proof. vm_compute. reflexivity. Qed.

Example noisy_answer_text :
  noisy_answer =
  dq (str "noise {not json} [{'title':'A','summary':'s','category':'c','sourceUrl':'u'}] trailing").
Proof. vm_compute. reflexivity. Qed.

(** The example of the spec: one record, its four fields as decoded, and a
    numeric id. *)
Example noisy_answer_parsed :
  exists w',
    fetchNews true lang (answered noisy_answer) empty_world = (Normal tt, w') /\
    articles (view w') =
      JArr [JObj [(str "title", JStr (str "A")); (str "summary", JStr (str "s"));
                  (str "category", JStr (str "c")); (str "sourceUrl", JStr (str "u"));
                  (str "id", JNum 5000001)]] /\
    error (view w') = None.
Proof. eexists. split; [vm_compute; reflexivity|]. split; reflexivity. Qed.

(** An entry that is not JSON is removed before the request leaves. *)
Example corrupt_entry_is_removed :
  exists w1,
    fetchNews_start true lang corrupt_world = (Normal true, w1) /\
    localStorage w1 !! cacheKey lang = None /\
    trace w1 = [RemoveItem (cacheKey lang); Query lang 5000000].
Proof. eexists. split; [vm_compute; reflexivity|]. split; vm_compute; reflexivity. Qed.

(** An entry whose timestamp cannot be made a number is removed as well:
    the subtraction throws inside the [try] of the read. *)
Example unreadable_timestamp_is_removed :
  exists w1,
    fetchNews_start true lang odd_world = (Normal true, w1) /\
    localStorage w1 !! cacheKey lang = None /\
    trace w1 = [RemoveItem (cacheKey lang); Query lang 1000101].
Proof. eexists. split; [vm_compute; reflexivity|]. split; vm_compute; reflexivity. Qed.

(** The fault of the state updater: the call itself ends normally. *)
Example load_more_on_unspreadable_list :
  exists w',
    fetchNews false lang (answered noisy_answer) unspreadable_world = (Normal tt, w') /\
    render_fault w' = true /\
    articles (view w') = JObj [(str "length", JNum 1)] /\
    fetchingMore (view w') = false /\
    trace w' = [Query lang 5000000].
Proof.
  eexists. split; [vm_compute; reflexivity|].
  split; [reflexivity|]. split; [reflexivity|]. split; reflexivity.
Qed.

Lemma refresh_served_from_fresh_cache_witness :
  clock fresh_world (reads fresh_world) - 1000000 < CACHE_DURATION /\
  exists w',
    fetchNews true lang network_down fresh_world = (Normal tt, w') /\
    trace w' = trace fresh_world /\
    articles (view w') = JArr [stored 1000000 "Old"] /\
    error (view w') = None /\
    loading (view w') = false.
Proof.
  split; [vm_compute; reflexivity|].
  apply (refresh_served_from_fresh_cache lang (write old_payload)
           [(str "timestamp", JNum 1000000); (str "articles", JArr [stored 1000000 "Old"])]
           1000000 [stored 1000000 "Old"] network_down fresh_world).
  - vm_compute. reflexivity.
  - vm_compute. discriminate.
  - vm_compute. reflexivity.
  - vm_compute. reflexivity.
  - vm_compute. reflexivity.
  - vm_compute. reflexivity.
  - discriminate.
Defined.

Lemma failed_refresh_falls_back_witness :
  fetched rate_limited = Throw (Thrown (str "ApiError: got status: 429 Too Many Requests")) /\
  exists w',
    fetchNews_resume true lang rate_limited empty_world = (Normal tt, w') /\
    error (view w') = Some FETCH_RATE_LIMITED /\
    articles (view w') = FALLBACK_ARTICLES.
Proof.
  split; [reflexivity|].
  destruct (failed_refresh_falls_back lang rate_limited
              (Thrown (str "ApiError: got status: 429 Too Many Requests"))
              (str "ApiError: got status: 429 Too Many Requests")
              empty_world eq_refl eq_refl)
    as (w' & Hr & He & _ & _ & _ & _ & Hnone & _).
  exists w'. split; [exact Hr|]. split; [exact He|].
  apply Hnone. intros a Ha. apply stale_articles_usable in Ha.
  vm_compute in Ha. discriminate.
Defined.

(** C3 as stated fails: a text without opening bracket does not leave the
    parser as the error about the missing array; that error is replaced, and
    the view state shows the generic message. *)
Lemma no_array_error_is_replaced :
  (LBRACKET ∉ str "no array here") /\
  extract_json (Some (str "no array here")) = Throw (Error NO_ARRAY_MESSAGE) /\
  parse_response (Some (str "no array here")) <> Throw (Error NO_ARRAY_MESSAGE) /\
  parse_response (Some (str "no array here")) = Throw (Error PARSE_FAILED_MESSAGE) /\
  exists w',
    fetchNews true lang (answered (str "no array here")) empty_world = (Normal tt, w') /\
    error (view w') = Some FETCH_FAILED.
Proof.
  split; [|split; [|split; [|split]]].
  - apply indexOf_absent. vm_compute. reflexivity.
  - vm_compute. reflexivity.
  - vm_compute. intros Heq. discriminate Heq.
  - vm_compute. reflexivity.
  - eexists. split; [vm_compute; reflexivity|]. reflexivity.
Qed.

Lemma parse_failures_surface_as_parse_failed_witness :
  (LBRACKET ∉ str "no array here") /\
  parse_response (Some (str "no array here")) = Throw (Error PARSE_FAILED_MESSAGE).
Proof.
  assert (Hno : LBRACKET ∉ str "no array here")
    by (apply indexOf_absent; vm_compute; reflexivity).
  split; [exact Hno|].
  exact (proj2 (proj1 (proj2 parse_failures_surface_as_parse_failed)
                  (str "no array here") Hno)).
Defined.



Lemma failed_load_more_keeps_articles_witness :
  fetched network_down = Throw (Thrown (str "TypeError: Failed to fetch")) /\
  exists w',
    fetchNews false lang network_down showing_world = (Normal tt, w') /\
    articles (view w') = JArr [stored 1000000 "Old"] /\
    localStorage w' = localStorage showing_world /\
    trace w' = [Query lang 5000000] /\
    error (view w') = Some MORE_FAILED.
Proof.
  split; [reflexivity|].
  destruct (failed_load_more_keeps_articles lang network_down
              (Thrown (str "TypeError: Failed to fetch")) showing_world eq_refl)
    as (_ & (c & w' & Hr & Ha & Hst & Ht & He) & _).
  destruct (He (str "TypeError: Failed to fetch") eq_refl) as [-> Herr].
  exists w'. split; [exact Hr|]. split; [exact Ha|]. split; [exact Hst|].
  split; [exact Ht | exact Herr].
Defined.

Lemma load_more_appends_and_rewrites_witness :
  fetched (answered noisy_answer) = Normal [article "A" "s" "c" "u"] /\
  articles (view showing_world) = JArr [stored 1000000 "Old"] /\
  exists w' batch now,
    newArticlesWithIds (JArr [article "A" "s" "c" "u"]) showing_world =
      (Normal batch, advance 1 showing_world) /\
    Date_now (advance 1 showing_world) = (Normal now, advance 2 showing_world) /\
    fetchNews_resume false lang (answered noisy_answer) showing_world = (Normal tt, w') /\
    articles (view w') = JArr ([stored 1000000 "Old"] ++ batch) /\
    localStorage w' =
      <[cacheKey lang :=
          JSON_stringify (cachePayload now (JArr ([stored 1000000 "Old"] ++ batch)))]>
        (localStorage showing_world) /\
    fetchingMore (view w') = false.
Proof.
  assert (Hf : fetched (answered noisy_answer) = Normal [article "A" "s" "c" "u"])
    by (vm_compute; reflexivity).
  split; [exact Hf|]. split; [reflexivity|].
  exact (proj1 (load_more_appends_and_rewrites lang (answered noisy_answer)
                  [article "A" "s" "c" "u"] [stored 1000000 "Old"] showing_world
                  Hf eq_refl)).
Defined.

(** Two clicks in a row: the second one finds the flag set. *)
Lemma load_more_guard_witness :
  fetchingMore (view empty_world) = false /\
  let s := run (mounted empty_world) [EffectRun lang; ClickMore lang; ClickMore lang] in
  (loads_in_flight s <= 1)%nat /\
  loads_in_flight s = (if fetchingMore (view (world s)) then 1 else 0)%nat.
Proof.
  split; [reflexivity|].
  exact (proj1 (proj2 load_more_guard) empty_world
           [EffectRun lang; ClickMore lang; ClickMore lang] eq_refl).
Defined.

Example two_clicks_one_request :
  pending (run (mounted empty_world) [EffectRun lang; ClickMore lang; ClickMore lang]) =
  [ {| isRefresh := true; language := lang |}; {| isRefresh := false; language := lang |} ].
Proof. vm_compute. reflexivity. Qed.



(** C8 fails on the code.  A request rejected with [undefined] reaches the
    outer [catch], whose [err.toString()] throws a [TypeError] outside every
    [try]: after the [finally] block has cleared the loading flag, the
    exception leaves [fetchNews], and the view state shows neither a message
    nor the fallback articles. *)
Theorem rejection_with_undefined_reaches_the_caller :
  exists w',
    fetchNews true lang rejected_with_undefined empty_world = (Throw TypeError, w') /\
    error (view w') = None /\
    articles (view w') = JArr [] /\
    loading (view w') = false /\
    trace w' = [Query lang 5000000].
Proof.
  eexists. split; [vm_compute; reflexivity|].
  split; [reflexivity|]. split; [reflexivity|]. split; reflexivity.
Qed.


Example three_calls_in_a_row :
  let s := run (mounted showing_world)
             [EffectRun lang; Settle 0 rate_limited; ClickMore lang;
              Settle 0 (answered noisy_answer); ClickMore lang; Settle 0 network_down] in
  pending s = [] /\
  error (view (world s)) = Some MORE_FAILED /\
  articles (view (world s)) =
    JArr [stored 1000000 "Old";
          JObj [(str "title", JStr (str "A")); (str "summary", JStr (str "s"));
                (str "category", JStr (str "c")); (str "sourceUrl", JStr (str "u"));
                (str "id", JNum 5000003)]].
Proof. vm_compute. split; [reflexivity|]. split; reflexivity. Qed.

Lemma batch_ids_witness :
  (forall i j : nat,
     (i <= j < 2)%nat ->
     clock frozen_world (i + reads frozen_world)%nat <=
     clock frozen_world (j + reads frozen_world)%nat) /\
  exists batch,
    newArticlesWithIds (JArr [article "A" "s" "c" "u"; article "B" "s" "c" "u"]) frozen_world =
      (Normal batch, advance 2 frozen_world) /\
    NoDup (map id_of batch).
Proof.
  assert (Hm : forall i j : nat,
             (i <= j < 2)%nat ->
             clock frozen_world (i + reads frozen_world)%nat <=
             clock frozen_world (j + reads frozen_world)%nat)
    by (intros i j _; simpl; lia).
  split; [exact Hm|].
  destruct (batch_ids [article "A" "s" "c" "u"; article "B" "s" "c" "u"] frozen_world)
    as (batch & Hb & _ & _ & Hnd).
  exists batch. split; [exact Hb | exact (Hnd Hm)].
Defined.

(** C9 as stated fails: the clock is read once for each record, and the
    index does not keep two records apart when the clock is set back
    between them. *)
Lemma clock_set_back_repeats_an_id :
  exists batch,
    newArticlesWithIds (JArr [article "A" "s" "c" "u"; article "B" "s" "c" "u"])
      set_back_world = (Normal batch, advance 2 set_back_world) /\
    map id_of batch = [JNum 5000001; JNum 5000001] /\
    ~ NoDup (map id_of batch).
Proof.
  eexists. split; [apply newArticlesWithIds_array|].
  assert (Hids : map id_of (stamped set_back_world
                              [article "A" "s" "c" "u"; article "B" "s" "c" "u"]) =
                 [JNum 5000001; JNum 5000001]) by (vm_compute; reflexivity).
  split; [exact Hids|]. rewrite Hids. intros Hnd.
  apply NoDup_cons in Hnd as [Hnin _]. apply Hnin. apply elem_of_cons. left. reflexivity.
Qed.

Example frozen_batch_ids :
  map id_of (stamped frozen_world [article "A" "s" "c" "u"; article "B" "s" "c" "u"]) =
  [JNum 5000000; JNum 5000001].
Proof. vm_compute. reflexivity. Qed.

Lemma cache_written_only_on_success_witness :
  clock fresh_world (reads fresh_world) - 1000000 < CACHE_DURATION /\
  exists w',
    fetchNews true lang network_down fresh_world = (Normal tt, w') /\
    localStorage w' = localStorage fresh_world /\ trace w' = trace fresh_world.
Proof.
  split; [vm_compute; reflexivity|].
  apply (proj1 cache_written_only_on_success lang (write old_payload)
           [(str "timestamp", JNum 1000000); (str "articles", JArr [stored 1000000 "Old"])]
           1000000 [stored 1000000 "Old"] network_down fresh_world).
  - vm_compute. reflexivity.
  - vm_compute. discriminate.
  - vm_compute. reflexivity.
  - vm_compute. reflexivity.
  - vm_compute. reflexivity.
  - vm_compute. reflexivity.
  - discriminate.
Defined.

(** * Further properties *)

(** ** The parser on wrapped arrays *)

Lemma trimStart_app (pre s : jsstring) (c : N) :
  is_space c = false ->
  trimStart (pre ++ c :: s) = trimStart pre ++ c :: s.
Proof.
  intros Hc. induction pre as [|x pre IH]; simpl.
  - rewrite Hc. reflexivity.
  - destruct (is_space x); [exact IH | reflexivity].
Qed.

Lemma trimEnd_app (s post : jsstring) (c : N) :
  is_space c = false ->
  trimEnd (s ++ c :: post) = s ++ c :: trimEnd post.
Proof.
  intros Hc. unfold trimEnd.
  rewrite rev_app_distr. simpl. rewrite <- app_assoc. simpl.
  rewrite trimStart_app by exact Hc.
  rewrite rev_app_distr. simpl. rewrite rev_involutive, <- app_assoc. reflexivity.
Qed.

Lemma trimStart_subset (c : N) (s : jsstring) : c ∈ trimStart s -> c ∈ s.
Proof.
  intros Hc. destruct (trimStart_suffix s) as [pre Hs]. rewrite Hs.
  apply elem_of_app. right. exact Hc.
Qed.

Lemma trimEnd_subset (c : N) (s : jsstring) : c ∈ trimEnd s -> c ∈ s.
Proof.
  unfold trimEnd. intros Hc.
  apply list_elem_of_In, in_rev, list_elem_of_In, trimStart_subset in Hc.
  apply list_elem_of_In, in_rev, list_elem_of_In. exact Hc.
Qed.

Lemma indexOf_app_first (c : N) (pre rest : jsstring) :
  c ∉ pre -> indexOf c (pre ++ c :: rest) = Z.of_nat (length pre).
Proof.
  induction pre as [|x pre IH]; intros Hpre; simpl.
  - rewrite N.eqb_refl. reflexivity.
  - rewrite not_elem_of_cons in Hpre. destruct Hpre as [Hx Hpre].
    destruct (N.eqb_spec x c); [congruence|].
    rewrite (IH Hpre). destruct (Z.ltb_spec (Z.of_nat (length pre)) 0); lia.
Qed.

Lemma lastIndexOf_app_last (c : N) (s post : jsstring) :
  c ∉ post -> lastIndexOf c (s ++ c :: post) = Z.of_nat (length s).
Proof.
  intros Hpost. induction s as [|x s IH]; simpl.
  - apply lastIndexOf_absent in Hpost. rewrite Hpost. simpl.
    rewrite N.eqb_refl. reflexivity.
  - rewrite IH. destruct (Z.leb_spec 0 (Z.of_nat (length s))); lia.
Qed.

Lemma startsWith_prefix (p s : jsstring) :
  startsWith p s = true <-> exists b, s = p ++ b.
Proof.
  revert s. induction p as [|x p IH]; intros s; simpl.
  - split; [intros _; exists s; reflexivity | reflexivity].
  - destruct s as [|y s].
    + split; [discriminate | intros [b Hb]; discriminate].
    + rewrite andb_true_iff, N.eqb_eq, IH. split.
      * intros [-> [b ->]]. exists b. reflexivity.
      * intros [b [= -> ->]]. split; [reflexivity | exists b; reflexivity].
Qed.

(** [includes] is the search for a substring. *)
Lemma includes_substring (p s : jsstring) :
  includes p s = true <-> exists a b, s = a ++ p ++ b.
Proof.
  split.
  - induction s as [|x s IH]; simpl.
    + rewrite orb_false_r. intros Hp. apply startsWith_prefix in Hp as [b Hb].
      exists [], b. exact Hb.
    + rewrite orb_true_iff. intros [Hp|Hi].
      * apply startsWith_prefix in Hp as [b Hb]. exists [], b. exact Hb.
      * destruct (IH Hi) as (a & b & ->). exists (x :: a), b. reflexivity.
  - intros (a & b & ->). induction a as [|x a IH]; simpl.
    + assert (Hp : startsWith p (p ++ b) = true)
        by (apply startsWith_prefix; exists b; reflexivity).
      destruct (p ++ b); simpl in *; rewrite Hp; reflexivity.
    + rewrite IH. apply orb_true_r.
Qed.

Section Extras.
Context `{Platform}.

(** X1. Text around the array is dropped when it has no bracket of its
    own: for a lead without opening bracket and a tail without closing
    bracket, white space or not, the decoder receives exactly the array, and
    the parser's result is the decoder's. *)
Theorem wrapper_text_is_stripped (pre mid post : jsstring) :
  LBRACKET ∉ pre ->
  RBRACKET ∉ post ->
  extract_json (Some (pre ++ LBRACKET :: mid ++ RBRACKET :: post)) =
    JSON_parse (LBRACKET :: mid ++ [RBRACKET]) /\
  parse_response (Some (pre ++ LBRACKET :: mid ++ RBRACKET :: post)) =
    match JSON_parse (LBRACKET :: mid ++ [RBRACKET]) with
    | Normal articlesData => Normal articlesData
    | Throw _ => Throw (Error PARSE_FAILED_MESSAGE)
    end.
Proof.
  intros Hpre Hpost.
  assert (Ht : trim (pre ++ LBRACKET :: mid ++ RBRACKET :: post) =
               trimStart pre ++ (LBRACKET :: mid ++ [RBRACKET]) ++ trimEnd post).
  { unfold trim. rewrite trimStart_app by reflexivity.
    replace (trimStart pre ++ LBRACKET :: mid ++ RBRACKET :: post)
      with ((trimStart pre ++ LBRACKET :: mid) ++ RBRACKET :: post)
      by (rewrite <- app_assoc; reflexivity).
    rewrite trimEnd_app by reflexivity.
    rewrite <- !app_assoc. simpl. rewrite <- app_assoc. reflexivity. }
  assert (Hpre' : LBRACKET ∉ trimStart pre)
    by (intros Hin; apply Hpre, trimStart_subset, Hin).
  assert (Hpost' : RBRACKET ∉ trimEnd post)
    by (intros Hin; apply Hpost, trimEnd_subset, Hin).
  assert (He : extract_json (Some (pre ++ LBRACKET :: mid ++ RBRACKET :: post)) =
               JSON_parse (LBRACKET :: mid ++ [RBRACKET])).
  { unfold extract_json. rewrite Ht.
    assert (Hi : indexOf LBRACKET
                   (trimStart pre ++ (LBRACKET :: mid ++ [RBRACKET]) ++ trimEnd post) =
                 Z.of_nat (length (trimStart pre)))
      by (simpl; apply indexOf_app_first, Hpre').
    assert (Hj : lastIndexOf RBRACKET
                   (trimStart pre ++ (LBRACKET :: mid ++ [RBRACKET]) ++ trimEnd post) =
                 Z.of_nat (length (trimStart pre ++ LBRACKET :: mid))).
    { replace (trimStart pre ++ (LBRACKET :: mid ++ [RBRACKET]) ++ trimEnd post)
        with ((trimStart pre ++ LBRACKET :: mid) ++ RBRACKET :: trimEnd post)
        by (rewrite <- !app_assoc; simpl; rewrite <- app_assoc; reflexivity).
      apply lastIndexOf_app_last, Hpost'. }
    rewrite Hi, Hj. rewrite length_app. simpl length.
    destruct (Z.eqb_spec (Z.of_nat (length (trimStart pre))) (-1)); [lia|].
    destruct (Z.eqb_spec (Z.of_nat (length (trimStart pre) + S (length mid))) (-1)); [lia|].
    destruct (Z.ltb_spec (Z.of_nat (length (trimStart pre) + S (length mid)))
                (Z.of_nat (length (trimStart pre)))); [lia|].
    simpl. f_equal.
    replace (Z.of_nat (length (trimStart pre) + S (length mid)) + 1)
      with (Z.of_nat (length (trimStart pre) + length (LBRACKET :: mid ++ [RBRACKET])))
      by (simpl; rewrite length_app; simpl; lia).
    exact (substring_middle (trimStart pre) (LBRACKET :: mid ++ [RBRACKET]) (trimEnd post)). }
  split; [exact He|]. unfold parse_response. rewrite He. reflexivity.
Qed.

(** X2. An error counts as a rate-limit error exactly when its string
    form [errString] has 429 or RESOURCE_EXHAUSTED somewhere inside,
    whatever stands around it; the messages of both modes follow that test
    alone. *)
Theorem rate_limit_is_substring_test (errString : jsstring) :
  (isRateLimitError errString = true <->
   exists a b,
     errString = a ++ str "429" ++ b \/
     errString = a ++ str "RESOURCE_EXHAUSTED" ++ b) /\
  (userMessage errString = FETCH_RATE_LIMITED <-> isRateLimitError errString = true) /\
  (moreMessage errString = MORE_RATE_LIMITED <-> isRateLimitError errString = true).
Proof.
  split; [|split].
  - rewrite isRateLimitError_markers, !includes_substring. split.
    + intros [(a & b & Hs)|(a & b & Hs)]; exists a, b; auto.
    + intros (a & b & [Hs|Hs]); [left | right]; exists a, b; exact Hs.
  - unfold userMessage. destruct (isRateLimitError errString).
    + split; reflexivity.
    + split; [|discriminate]. intros Heq. symmetry in Heq.
      destruct (proj1 messages_distinct Heq).
  - unfold moreMessage. destruct (isRateLimitError errString).
    + split; reflexivity.
    + split; [|discriminate]. intros Heq. symmetry in Heq.
      destruct (proj2 messages_distinct Heq).
Qed.

(** A refresh that finds no entry goes to the request. *)
Lemma fetchNews_start_absent (L : jsstring) (w : World) :
  localStorage w !! cacheKey L = None ->
  fetchNews_start true L w =
  (Normal true,
   {| view := {| articles := articles (view w); loading := true;
                 fetchingMore := fetchingMore (view w); error := None |};
      localStorage := localStorage w; clock := clock w; reads := S (reads w);
      trace := trace w ++ [Query L (clock w (reads w))];
      render_fault := render_fault w |}).
Proof.
  intros Hget. unfold fetchNews_start, before_fetch. run_m. rewrite Hget. reflexivity.
Qed.

(** X3. When the fetch of a refresh succeeds, the new batch replaces the
    list, whatever was shown, the payload of the language is rewritten with
    that batch and the time of the write, the other entries stay, loading is
    cleared and the error is left as the start of the call set it: null. *)
Theorem successful_refresh_replaces_list
    (L : jsstring) (settled : Completion Response) (l : list JSValue) (w : World) :
  fetched settled = Normal l ->
  (exists w' batch now,
     newArticlesWithIds (JArr l) w = (Normal batch, advance (length l) w) /\
     Date_now (advance (length l) w) = (Normal now, advance (S (length l)) w) /\
     fetchNews_resume true L settled w = (Normal tt, w') /\
     articles (view w') = JArr batch /\
     length batch = length l /\
     localStorage w' !! cacheKey L =
       Some (JSON_stringify (cachePayload now (JArr batch))) /\
     (forall k, k <> cacheKey L -> localStorage w' !! k = localStorage w !! k) /\
     trace w' = trace w ++
       [SetItem (cacheKey L) (JSON_stringify (cachePayload now (JArr batch)))] /\
     loading (view w') = false /\
     fetchingMore (view w') = fetchingMore (view w) /\
     error (view w') = error (view w)) /\
  (localStorage w !! cacheKey L = None ->
   exists w' batch,
     fetchNews true L settled w = (Normal tt, w') /\
     articles (view w') = JArr batch /\
     length batch = length l /\
     error (view w') = None /\
     loading (view w') = false /\
     exists date payload,
       trace w' = trace w ++ [Query L date; SetItem (cacheKey L) payload]).
Proof.
  intros Hf. split.
  - eexists _, (stamped w l), _.
    split; [apply newArticlesWithIds_array|]. split; [reflexivity|].
    split; [apply (fetchNews_resume_refresh_ok _ _ _ _ Hf)|].
    cbn [view articles localStorage trace loading fetchingMore error].
    split; [reflexivity|]. split; [unfold stamped; apply length_imap|].
    split; [apply lookup_insert_eq|].
    split; [intros k Hk; apply lookup_insert_ne; congruence|].
    repeat split.
  - intros Hget. unfold fetchNews, mbind, M_bind.
    rewrite (fetchNews_start_absent L w Hget).
    rewrite (fetchNews_resume_refresh_ok _ _ _ _ Hf).
    eexists _, _. split; [reflexivity|].
    cbn [view articles trace loading error].
    split; [reflexivity|]. split; [unfold stamped; apply length_imap|].
    split; [reflexivity|]. split; [reflexivity|].
    eexists _, _. rewrite <- app_assoc. reflexivity.
Qed.

Lemma payload_props (timestamp : Z) (a : JSValue) :
  lookup_prop (str "timestamp") [(str "timestamp", JNum timestamp); (str "articles", a)] =
    JNum timestamp /\
  lookup_prop (str "articles") [(str "timestamp", JNum timestamp); (str "articles", a)] = a.
Proof. split; reflexivity. Qed.

(** X4. What a successful refresh writes is what the next refresh reads:
    with an engine that decodes the payload it encoded, and a batch that is
    not empty, a refresh made while the entry is still there is served that
    very batch without a request when less than 15 minutes have passed since
    the write, and sends a request otherwise. *)
Theorem refresh_then_refresh
    (L : jsstring) (settled : Completion Response) (l : list JSValue) (w w2 : World) :
  let now := clock w (length l + reads w)%nat in
  let payload := cachePayload now (JArr (stamped w l)) in
  let w1 := snd (fetchNews_resume true L settled w) in
  fetched settled = Normal l ->
  l <> [] ->
  JSON_parse (JSON_stringify payload) = Normal payload ->
  JSON_stringify payload <> [] ->
  localStorage w2 !! cacheKey L = localStorage w1 !! cacheKey L ->
  (clock w2 (reads w2) - now < CACHE_DURATION ->
   forall settled2, exists w',
     fetchNews true L settled2 w2 = (Normal tt, w') /\
     articles (view w') = JArr (stamped w l) /\
     trace w' = trace w2 /\ error (view w') = None /\ loading (view w') = false) /\
  (CACHE_DURATION <= clock w2 (reads w2) - now ->
   exists w' date,
     fetchNews_start true L w2 = (Normal true, w') /\
     trace w' = trace w2 ++ [Query L date]).
Proof.
  intros now payload w1 Hf Hl Hround Htext Hsame.
  assert (Hget : localStorage w2 !! cacheKey L = Some (JSON_stringify payload)).
  { rewrite Hsame. unfold w1. rewrite (fetchNews_resume_refresh_ok _ _ _ _ Hf).
    cbn [snd localStorage]. apply lookup_insert_eq. }
  destruct (payload_props now (JArr (stamped w l))) as [Hts Harts].
  split.
  - intros Hfresh settled2. unfold fetchNews, mbind, M_bind.
    rewrite (fetchNews_start_hit L _ _ now (stamped w l) w2 Hget Htext Hround Hts Harts Hfresh).
    + eexists. split; [reflexivity|]. repeat split.
    + intros Hs. apply Hl. apply (f_equal length) in Hs.
      unfold stamped in Hs. rewrite length_imap in Hs. destruct l; [reflexivity | discriminate].
  - intros Hold.
    rewrite (fetchNews_start_miss L _ _ now (stamped w l) w2 Hget Htext Hround Hts Harts
               (or_introl Hold)).
    eexists _, _. split; reflexivity.
Qed.

(** X5. A successful load of more articles renews the whole entry: a
    refresh made less than 15 minutes after it is served the combined list,
    earlier articles included, however old they are. *)
Theorem load_more_then_refresh
    (L : jsstring) (settled : Completion Response) (l prev : list JSValue) (w w2 : World) :
  let now := clock w (length l + reads w)%nat in
  let payload := cachePayload now (JArr (prev ++ stamped w l)) in
  let w1 := snd (fetchNews_resume false L settled w) in
  fetched settled = Normal l ->
  articles (view w) = JArr prev ->
  prev ++ l <> [] ->
  JSON_parse (JSON_stringify payload) = Normal payload ->
  JSON_stringify payload <> [] ->
  localStorage w2 !! cacheKey L = localStorage w1 !! cacheKey L ->
  clock w2 (reads w2) - now < CACHE_DURATION ->
  forall settled2, exists w',
    fetchNews true L settled2 w2 = (Normal tt, w') /\
    articles (view w') = JArr (prev ++ stamped w l) /\
    trace w' = trace w2.
Proof.
  intros now payload w1 Hf Hprev Hne Hround Htext Hsame Hfresh settled2.
  assert (Hs : spread_elements (articles (view w)) = Normal prev)
    by (rewrite Hprev; reflexivity).
  assert (Hget : localStorage w2 !! cacheKey L = Some (JSON_stringify payload)).
  { rewrite Hsame. unfold w1. rewrite (fetchNews_resume_more_ok _ _ _ _ _ Hf Hs).
    cbn [snd localStorage]. apply lookup_insert_eq. }
  destruct (payload_props now (JArr (prev ++ stamped w l))) as [Hts Harts].
  unfold fetchNews, mbind, M_bind.
  rewrite (fetchNews_start_hit L _ _ now (prev ++ stamped w l) w2
             Hget Htext Hround Hts Harts Hfresh).
  - eexists. split; [reflexivity|]. repeat split.
  - intros Heq. apply Hne. apply (f_equal length) in Heq.
    rewrite length_app in Heq. unfold stamped in Heq. rewrite length_imap in Heq.
    destruct prev; [|discriminate]. destruct l; [reflexivity | discriminate].
Qed.

(** X6. An empty answer is taken as it comes and never served again: a
    refresh whose fetch decodes an empty array shows an empty list and
    writes an entry that no later refresh serves, at any time; each one
    sends a request, and shows the two hardcoded articles if it fails with
    an error that has a string form. *)
Theorem empty_batch_is_never_served
    (L : jsstring) (settled : Completion Response) (w w2 : World) :
  let now := clock w (reads w) in
  let payload := cachePayload now (JArr []) in
  let w1 := snd (fetchNews_resume true L settled w) in
  fetched settled = Normal [] ->
  JSON_parse (JSON_stringify payload) = Normal payload ->
  JSON_stringify payload <> [] ->
  localStorage w2 !! cacheKey L = localStorage w1 !! cacheKey L ->
  articles (view w1) = JArr [] /\
  exists w' date,
    fetchNews_start true L w2 = (Normal true, w') /\
    trace w' = trace w2 ++ [Query L date] /\
    forall settled2 err errString,
      fetched settled2 = Throw err ->
      toString err = Normal errString ->
      articles (view (snd (fetchNews_resume true L settled2 w'))) = FALLBACK_ARTICLES.
Proof.
  intros now payload w1 Hf Hround Htext Hsame.
  assert (Hw1 : fetchNews_resume true L settled w = _)
    by exact (fetchNews_resume_refresh_ok _ _ _ _ Hf).
  assert (Hget : localStorage w2 !! cacheKey L = Some (JSON_stringify payload)).
  { rewrite Hsame. unfold w1. rewrite Hw1. cbn [snd localStorage]. apply lookup_insert_eq. }
  split; [unfold w1; rewrite Hw1; reflexivity|].
  destruct (payload_props now (JArr [])) as [Hts Harts].
  rewrite (fetchNews_start_miss L _ _ now [] w2 Hget Htext Hround Hts Harts
             (or_intror eq_refl)).
  eexists _, _. split; [reflexivity|]. split; [reflexivity|].
  intros settled2 err errString Hf2 Hs2.
  rewrite (fetchNews_resume_refresh_failed _ _ _ _ _ Hf2 Hs2).
  cbn [snd view articles localStorage].
  destruct (stale_articles (localStorage w2) (cacheKey L)) as [a|] eqn:Ha; [|reflexivity].
  apply stale_articles_usable in Ha.
  destruct Ha as (data & parsed & Hget' & _ & Hparse & Harts' & Hn).
  rewrite Hget in Hget'. injection Hget' as <-.
  rewrite Hround in Hparse. injection Hparse as <-.
  simpl in Harts'. rewrite Harts in Harts'. injection Harts' as <-.
  apply non_empty_array in Hn. congruence.
Qed.

Lemma cacheKey_inj (L L' : jsstring) : cacheKey L = cacheKey L' -> L = L'.
Proof. unfold cacheKey. apply app_inv_head. Qed.

Lemma fetchNews_start_other_key (r : bool) (L k : jsstring) (w : World) :
  k <> cacheKey L ->
  localStorage (snd (fetchNews_start r L w)) !! k = localStorage w !! k.
Proof.
  intros Hk. destruct r.
  - destruct (fetchNews_start_refresh L w)
      as (b & w' & Hs & _ & _ & _ & _ &
          [(_ & _ & Hst & _)|(_ & _ & _ & [(Hst & _)|(_ & Hst & _)])]);
      rewrite Hs; cbn [snd]; rewrite Hst; try reflexivity.
    apply lookup_delete_ne. congruence.
  - rewrite fetchNews_start_more. reflexivity.
Qed.

Lemma fetchNews_resume_other_key (r : bool) (L k : jsstring)
    (settled : Completion Response) (w : World) :
  k <> cacheKey L ->
  localStorage (snd (fetchNews_resume r L settled w)) !! k = localStorage w !! k.
Proof.
  intros Hk.
  destruct (fetchNews_resume_cases r L settled w)
    as (c & w' & Hr & _ &
        [(_ & _ & _ & _ & _ & _ & Hst & _)
        |[(_ & v & _ & _ & _ & Hst & _)
         |[(_ & _ & _ & _ & _ & _ & _ & Hst & _)
          |(_ & _ & _ & _ & _ & _ & Hst & _)]]]);
    rewrite Hr; cbn [snd]; rewrite Hst; try reflexivity.
  apply lookup_insert_ne. congruence.
Qed.

Lemma start_world (r : bool) (L : jsstring) (s : System) :
  world (start r L s) = snd (fetchNews_start r L (world s)) /\
  (pending (start r L s) = pending s \/
   pending (start r L s) = pending s ++ [{| isRefresh := r; language := L |}]).
Proof.
  unfold start. destruct (fetchNews_start r L (world s)) as [[[|]|e] w]; cbn; auto.
Qed.

(** X7. The entries of the store are kept apart by language: two
    languages never share a key, and through any sequence of events after
    the mount, the entry of a language that no event asks for stays as it
    was. *)
Theorem other_languages_are_untouched :
  (forall L L' : jsstring, cacheKey L = cacheKey L' -> L = L') /\
  (forall (w : World) (es : list Event) (L' : jsstring),
     Forall (fun e => event_language e <> Some L') es ->
     localStorage (world (run (mounted w) es)) !! cacheKey L' =
     localStorage w !! cacheKey L').
Proof.
  split; [exact cacheKey_inj|].
  intros w es L' Hes.
  assert (Hrun : forall s,
            Forall (fun t => language t <> L') (pending s) ->
            localStorage (world (run s es)) !! cacheKey L' =
            localStorage (world s) !! cacheKey L').
  { unfold run. induction Hes as [|e es He Hes IH]; intros s Hp; [reflexivity|].
    simpl.
    assert (Hstart : forall r L, L <> L' ->
              Forall (fun t => language t <> L') (pending (start r L s)) /\
              localStorage (world (start r L s)) !! cacheKey L' =
              localStorage (world s) !! cacheKey L').
    { intros r L HL. destruct (start_world r L s) as [-> Hpend]. split.
      - destruct Hpend as [-> | ->]; [exact Hp|].
        apply Forall_app. split; [exact Hp|]. apply Forall_singleton. exact HL.
      - apply fetchNews_start_other_key. intros Hk. apply HL. symmetry.
        exact (cacheKey_inj _ _ Hk). }
    assert (Hstep : Forall (fun t => language t <> L') (pending (step s e)) /\
                    localStorage (world (step s e)) !! cacheKey L' =
                    localStorage (world s) !! cacheKey L').
    { destruct e as [L|L|i settled]; cbn [step].
      - apply Hstart. intros ->. apply He. reflexivity.
      - unfold handleLoadMore. destruct (negb _); [|split; [exact Hp | reflexivity]].
        apply Hstart. intros ->. apply He. reflexivity.
      - destruct (pending s !! i) as [t|] eqn:Ht; [|split; [exact Hp | reflexivity]].
        cbn [world pending]. split.
        + apply Forall_delete. exact Hp.
        + apply fetchNews_resume_other_key.
          pose proof (proj1 (Forall_lookup _ _) Hp i t Ht) as HL. simpl in HL.
          intros Hk. apply HL. symmetry. exact (cacheKey_inj _ _ Hk). }
    destruct Hstep as [Hp' Hl']. rewrite (IH _ Hp'). exact Hl'. }
  apply (Hrun (mounted w)). apply Forall_nil_2.
Qed.

Lemma fetchNews_resume_loading (r : bool) (L : jsstring)
    (settled : Completion Response) (w : World) :
  loading (view (snd (fetchNews_resume r L settled w))) =
  (if r then false else loading (view w)).
Proof.
  destruct (fetched settled) as [l|err] eqn:Hf; destruct r.
  - rewrite (fetchNews_resume_refresh_ok _ _ _ _ Hf). reflexivity.
  - destruct (spread_elements (articles (view w))) as [prev|e] eqn:Hprev.
    + rewrite (fetchNews_resume_more_ok _ _ _ _ _ Hf Hprev). reflexivity.
    + rewrite (fetchNews_resume_more_fault _ _ _ _ _ Hf Hprev). reflexivity.
  - destruct (toString err) as [errString|thrown] eqn:Hs.
    + rewrite (fetchNews_resume_refresh_failed _ _ _ _ _ Hf Hs). reflexivity.
    + rewrite (fetchNews_resume_unprintable _ _ _ _ _ _ Hf Hs). reflexivity.
  - destruct (toString err) as [errString|thrown] eqn:Hs.
    + rewrite (fetchNews_resume_more_failed _ _ _ _ _ Hf Hs). reflexivity.
    + rewrite (fetchNews_resume_unprintable _ _ _ _ _ _ Hf Hs). reflexivity.
Qed.

Lemma Forall_undelete {A : Type} (P : A -> Prop) (l : list A) (i : nat) (x : A) :
  l !! i = Some x -> P x -> Forall P (delete i l) -> Forall P l.
Proof.
  revert i. induction l as [|y l IH]; intros i Hi Hx Hd; [discriminate|].
  destruct i as [|i]; simpl in *.
  - injection Hi as ->. apply Forall_cons. split; assumption.
  - apply Forall_cons in Hd as [Hy Hd]. apply Forall_cons. split; [exact Hy|].
    exact (IH i Hi Hx Hd).
Qed.

Lemma effect_sets_loading (s : System) (L : jsstring) :
  no_refresh_pending (step s (EffectRun L)) ->
  loading (view (world (step s (EffectRun L)))) = false.
Proof.
  unfold no_refresh_pending. cbn [step]. unfold start.
  destruct (fetchNews_start_refresh L (world s))
    as (b & w' & Hs & _ & _ & _ & _ & [(-> & _ & _ & Hl & _)|(-> & _)]);
    rewrite Hs; cbn [world pending].
  - intros _. exact Hl.
  - intros Hp. apply Forall_app in Hp as [_ Hp].
    rewrite Forall_singleton in Hp. simpl in Hp. discriminate Hp.
Qed.

Lemma step_keeps_loading (s : System) (e : Event) :
  (no_refresh_pending s -> loading (view (world s)) = false) ->
  no_refresh_pending (step s e) -> loading (view (world (step s e))) = false.
Proof.
  intros Hinv. destruct e as [L|L|i settled].
  - apply effect_sets_loading.
  - unfold no_refresh_pending in *. cbn [step].
    unfold handleLoadMore. destruct (negb _); [|exact Hinv].
    unfold start. rewrite fetchNews_start_more. cbn [world pending view loading].
    intros Hp. apply Forall_app in Hp as [Hp _]. exact (Hinv Hp).
  - unfold no_refresh_pending in *. cbn [step].
    destruct (pending s !! i) as [t|] eqn:Ht; [|exact Hinv].
    cbn [world pending]. rewrite fetchNews_resume_loading.
    destruct (isRefresh t) eqn:Hr; [reflexivity|].
    intros Hp. apply Hinv. exact (Forall_undelete _ _ _ _ Ht Hr Hp).
Qed.

(** X8. The placeholders of the first load do not outlive the refreshes:
    once the effect has run, through any sequence of events, loading is set
    only while a refresh waits for its request. *)
Theorem loading_only_while_refresh_waits
    (w : World) (L : jsstring) (es : list Event) :
  let s := run (mounted w) (EffectRun L :: es) in
  no_refresh_pending s -> loading (view (world s)) = false.
Proof.
  cbv zeta. unfold run. simpl.
  assert (Hrun : forall s,
            (no_refresh_pending s -> loading (view (world s)) = false) ->
            no_refresh_pending (fold_left step es s) ->
            loading (view (world (fold_left step es s))) = false).
  { induction es as [|e es IH]; intros s Hs; [exact Hs|].
    simpl. apply IH. apply step_keeps_loading. exact Hs. }
  apply Hrun. apply effect_sets_loading.
Qed.

Lemma message_is_user_facing (r : bool) (errString : jsstring) :
  (if r then userMessage errString else moreMessage errString) ∈ user_facing.
Proof.
  unfold user_facing, userMessage, moreMessage.
  destruct r; destruct (isRateLimitError errString); rewrite !elem_of_cons; auto.
Qed.

(** X9. Through any sequence of events the error of the view state is
    null or one of the four messages, and an old message never outlives a
    new attempt: every run of the effect and every accepted click on "More"
    leaves the error null at once. *)
Theorem error_is_cleared_by_new_attempts :
  (forall (w : World) (es : list Event),
     (error (view w) = None \/ exists m, error (view w) = Some m /\ m ∈ user_facing) ->
     error (view (world (run (mounted w) es))) = None \/
     exists m, error (view (world (run (mounted w) es))) = Some m /\ m ∈ user_facing) /\
  (forall (s : System) (L : jsstring),
     error (view (world (step s (EffectRun L)))) = None) /\
  (forall (s : System) (L : jsstring),
     fetchingMore (view (world s)) = false ->
     error (view (world (step s (ClickMore L)))) = None).
Proof.
  assert (Heffect : forall (s : System) (L : jsstring),
            error (view (world (step s (EffectRun L)))) = None).
  { intros s L. cbn [step]. unfold start.
    destruct (fetchNews_start_refresh L (world s)) as (b & w' & Hs & _ & _ & _ & Herr & _).
    rewrite Hs. destruct b; exact Herr. }
  assert (Hclick : forall (s : System) (L : jsstring),
            fetchingMore (view (world s)) = false ->
            error (view (world (step s (ClickMore L)))) = None).
  { intros s L Hfm. cbn [step]. unfold handleLoadMore. rewrite Hfm. cbn [negb].
    unfold start. rewrite fetchNews_start_more. reflexivity. }
  split; [|split; assumption].
  intros w es Hw.
  assert (Hrun : forall s,
            (error (view (world s)) = None \/
             exists m, error (view (world s)) = Some m /\ m ∈ user_facing) ->
            error (view (world (run s es))) = None \/
            exists m, error (view (world (run s es))) = Some m /\ m ∈ user_facing).
  { unfold run. induction es as [|e es IH]; intros s Hs; [exact Hs|].
    simpl. apply IH. destruct e as [L|L|i settled].
    - left. apply Heffect.
    - destruct (fetchingMore (view (world s))) eqn:Hfm.
      + cbn [step]. unfold handleLoadMore. rewrite Hfm. exact Hs.
      + left. apply Hclick, Hfm.
    - cbn [step]. destruct (pending s !! i) as [t|]; [|exact Hs]. cbn [world].
      destruct (fetchNews_resume_cases (isRefresh t) (language t) settled (world s))
        as (c & w' & Hr & _ &
            [(err & errString & _ & _ & _ & _ & _ & He & _)
            |[(l & v & _ & _ & _ & _ & He & _)
             |[(l & e & _ & _ & _ & _ & _ & _ & He & _)
              |(err & thrown & _ & _ & _ & _ & _ & He & _)]]]);
        rewrite Hr; cbn [snd]; rewrite He; try exact Hs.
      right. eexists. split; [reflexivity | apply message_is_user_facing]. }
  exact (Hrun (mounted w) Hw).
Qed.

Lemma stamped_id_at (w : World) (l : list JSValue) (n : nat) (y : JSValue) :
  map id_of (stamped w l) !! n = Some y ->
  (n < length l)%nat /\ y = JNum (clock w (n + reads w)%nat + Z.of_nat n).
Proof.
  intros Hn. split.
  - apply lookup_lt_Some in Hn. unfold stamped in Hn.
    rewrite length_map, length_imap in Hn. exact Hn.
  - change (map id_of (stamped w l)) with (id_of <$> stamped w l) in Hn.
    rewrite list_lookup_fmap, stamped_lookup in Hn.
    destruct (l !! n); [|discriminate]. simpl in Hn. injection Hn as <-.
    apply lookup_set_prop_eq.
Qed.

Lemma stamped_ids_NoDup (w : World) (l : list JSValue) :
  (forall i j : nat, (i <= j)%nat -> clock w i <= clock w j) ->
  NoDup (map id_of (stamped w l)).
Proof.
  intros Hmono. apply NoDup_alt. intros i j x Hi Hj.
  destruct (stamped_id_at _ _ _ _ Hi) as [_ Hxi].
  destruct (stamped_id_at _ _ _ _ Hj) as [_ Hxj].
  rewrite Hxi in Hxj. injection Hxj as Heq.
  destruct (Nat.lt_trichotomy i j) as [Hlt|[Heq'|Hgt]]; [|exact Heq'|].
  - pose proof (Hmono (i + reads w)%nat (j + reads w)%nat ltac:(lia)). lia.
  - pose proof (Hmono (j + reads w)%nat (i + reads w)%nat ltac:(lia)). lia.
Qed.

(** X10. The ids of a list grown by a load of more articles are pairwise
    distinct when the clock does not run backwards and at least as many
    milliseconds as the first batch has articles pass between the end of the
    first batch and the start of the second; the list then offers one key
    per article. *)
Theorem ids_of_two_batches
    (L : jsstring) (settled : Completion Response) (l1 l2 : list JSValue) (w1 w2 : World) :
  clock w2 = clock w1 ->
  (forall i j : nat, (i <= j)%nat -> clock w1 i <= clock w1 j) ->
  (length l1 + reads w1 <= reads w2)%nat ->
  Z.of_nat (length l1) <= clock w1 (reads w2) - clock w1 (length l1 + reads w1)%nat ->
  articles (view w2) = JArr (stamped w1 l1) ->
  fetched settled = Normal l2 ->
  exists w',
    fetchNews_resume false L settled w2 = (Normal tt, w') /\
    articles (view w') = JArr (stamped w1 l1 ++ stamped w2 l2) /\
    NoDup (map id_of (stamped w1 l1 ++ stamped w2 l2)).
Proof.
  intros Hclock Hmono Hreads Hgap Hprev Hf.
  assert (Hs : spread_elements (articles (view w2)) = Normal (stamped w1 l1))
    by (rewrite Hprev; reflexivity).
  eexists. split; [apply (fetchNews_resume_more_ok _ _ _ _ _ Hf Hs)|].
  split; [reflexivity|].
  rewrite map_app. apply NoDup_app. split; [apply stamped_ids_NoDup, Hmono|].
  split; [|apply stamped_ids_NoDup; rewrite Hclock; exact Hmono].
  intros x Hx1 Hx2.
  apply list_elem_of_lookup in Hx1 as [i Hi]. apply list_elem_of_lookup in Hx2 as [j Hj].
  destruct (stamped_id_at _ _ _ _ Hi) as [Hil Hxi].
  destruct (stamped_id_at _ _ _ _ Hj) as [_ Hxj].
  rewrite Hxi, Hclock in Hxj. injection Hxj as Heq.
  pose proof (Hmono (i + reads w1)%nat (length l1 + reads w1)%nat ltac:(lia)).
  pose proof (Hmono (reads w2) (j + reads w2)%nat ltac:(lia)).
  lia.
Qed.

(** ** The card *)

Lemma JSValue_nested_ind (P : JSValue -> Prop) :
  P JUndefined -> P JNull -> (forall b, P (JBool b)) -> (forall n, P (JNum n)) ->
  (forall s, P (JStr s)) -> (forall l, Forall P l -> P (JArr l)) ->
  (forall props, P (JObj props)) ->
  forall v, P v.
Proof.
  intros Hu Hn Hb Hnum Hs Ha Ho. fix IH 1.
  intros [| |b|n|s|l|props];
    [exact Hu | exact Hn | apply Hb | apply Hnum | apply Hs | | apply Ho].
  apply Ha. induction l as [|x l IHl]; constructor; [apply IH | exact IHl].
Qed.

Lemma Array_join_throws (element : JSValue -> Completion jsstring) (l : list JSValue)
    (e : Exn) :
  Forall (fun x => forall e, element x = Throw e -> e = TypeError) l ->
  Array_join element l = Throw e -> e = TypeError.
Proof.
  induction 1 as [|x l Hx _ IH]; simpl; [discriminate|].
  destruct (element x) as [s|e']; [|intros [= <-]; exact (Hx _ eq_refl)].
  destruct l as [|y l]; [discriminate|].
  destruct (Array_join element (y :: l)) as [r|e'']; [discriminate|].
  intros [= <-]. apply IH. reflexivity.
Qed.

(** A coercion throws nothing but a [TypeError]. *)
Lemma ToString_throws (v : JSValue) (e : Exn) : ToString v = Throw e -> e = TypeError.
Proof.
  revert e. induction v as [| |b|n|s|l IHl|props] using JSValue_nested_ind;
    intros e; cbn [ToString]; try discriminate.
  - apply Array_join_throws. eapply Forall_impl; [exact IHl|].
    intros x Hx e'. destruct x; try discriminate; apply Hx.
  - destruct (has_own _ _); [intros [= <-]; reflexivity | discriminate].
Qed.

Lemma ToNumber_throws (v : JSValue) (e : Exn) : ToNumber v = Throw e -> e = TypeError.
Proof.
  destruct v as [| |b|n|s|l|props]; cbn [ToNumber]; try discriminate.
  - destruct (ToString (JArr l)) as [s|e'] eqn:Hs; [discriminate|].
    intros [= <-]. exact (ToString_throws _ _ Hs).
  - destruct (has_own _ _); [intros [= <-]; reflexivity | discriminate].
Qed.

Lemma element_key_throws (v : JSValue) (e : Exn) :
  element_key v = Throw e -> e = TypeError.
Proof.
  unfold element_key. destruct (ToString v) as [k|e'] eqn:Hk.
  - destruct v; discriminate.
  - destruct v; try discriminate; intros [= <-]; exact (ToString_throws _ _ Hk).
Qed.

Lemma Get_value (a : JSValue) (k : jsstring) :
  a <> JNull -> a <> JUndefined -> exists v, Get a k = Normal v.
Proof. intros Hn Hu. destruct a; try congruence; eexists; reflexivity. Qed.

Lemma Get_id (a : JSValue) :
  a <> JNull -> a <> JUndefined -> Get a (str "id") = Normal (id_of a).
Proof. intros Hn Hu. destruct a; try congruence; reflexivity. Qed.

Lemma Get_throws (a : JSValue) (k : jsstring) (e : Exn) :
  Get a k = Throw e -> e = TypeError /\ (a = JNull \/ a = JUndefined).
Proof. destruct a; simpl; intros [=]; auto. Qed.

(** What one card contributes to the queries. *)
Lemma card_queries (a : JSValue) (c : VNode) :
  card a = Normal c ->
  renderable a /\
  clickable c = [(key_of a, SelectArticle a)] /\
  buttons c = [] /\ alerts c = [] /\ placeholders c = [].
Proof.
  unfold card. destruct (Get a (str "id")) as [id|e] eqn:Hid; [|discriminate].
  assert (Ha : a <> JNull /\ a <> JUndefined)
    by (split; intros ->; discriminate Hid).
  destruct Ha as [Hn Hu]. rewrite (Get_id a Hn Hu) in Hid. injection Hid as <-.
  destruct (Get a (str "category")) as [category|e]; [|discriminate].
  destruct (Get a (str "title")) as [title|e]; [|discriminate].
  destruct (Get a (str "summary")) as [summary|e]; [|discriminate].
  destruct (element_key (id_of a)) as [k|e] eqn:Hk; [|discriminate].
  intros [= <-].
  split; [split; [exact Hn|]; split; [exact Hu|]; exists k; exact Hk|].
  unfold key_of. rewrite Hk.
  split; [reflexivity|]. split; [reflexivity|]. split; reflexivity.
Qed.

Lemma card_total (a : JSValue) : renderable a -> exists c, card a = Normal c.
Proof.
  intros (Hn & Hu & k & Hk). unfold card. rewrite (Get_id a Hn Hu).
  destruct (Get_value a (str "category") Hn Hu) as [category ->].
  destruct (Get_value a (str "title") Hn Hu) as [title ->].
  destruct (Get_value a (str "summary") Hn Hu) as [summary ->].
  rewrite Hk. eexists. reflexivity.
Qed.

Lemma card_throws (a : JSValue) (e : Exn) : card a = Throw e -> e = TypeError.
Proof.
  unfold card.
  destruct (Get a (str "id")) as [id|e1] eqn:H1;
    [|intros [= <-]; exact (proj1 (Get_throws _ _ _ H1))].
  destruct (Get a (str "category")) as [category|e2] eqn:H2;
    [|intros [= <-]; exact (proj1 (Get_throws _ _ _ H2))].
  destruct (Get a (str "title")) as [title|e3] eqn:H3;
    [|intros [= <-]; exact (proj1 (Get_throws _ _ _ H3))].
  destruct (Get a (str "summary")) as [summary|e4] eqn:H4;
    [|intros [= <-]; exact (proj1 (Get_throws _ _ _ H4))].
  destruct (element_key id) as [k|e5] eqn:H5; [discriminate|].
  intros [= <-]. exact (element_key_throws _ _ H5).
Qed.

(** What the mapped list contributes to the queries. *)
Lemma cards_queries (l : list JSValue) (cs : list VNode) :
  cards l = Normal cs ->
  Forall renderable l /\
  clickable (Nodes cs) = map (fun a => (key_of a, SelectArticle a)) l /\
  buttons (Nodes cs) = [] /\ alerts (Nodes cs) = [] /\ placeholders (Nodes cs) = [].
Proof.
  revert cs. induction l as [|a l IH]; intros cs; simpl.
  - intros [= <-]. split; [apply Forall_nil_2|]. repeat split.
  - destruct (card a) as [c|e] eqn:Hc; [|discriminate].
    destruct (cards l) as [cs'|e]; [|discriminate]. intros [= <-].
    destruct (card_queries a c Hc) as (Hr & Hcl & Hb & Hal & Hp).
    destruct (IH cs' eq_refl) as (Hall & Hcl' & Hb' & Hal' & Hp').
    split; [apply Forall_cons; auto|].
    unfold clickable, buttons, alerts, placeholders, with_class in *.
    cbn [descendants flat_map] in *.
    cbn [omap list_omap List.filter has_class] in *.
    rewrite !omap_app, !List.filter_app.
    rewrite Hcl, Hb, Hal, Hp, Hcl', Hb', Hal', Hp'. repeat split.
Qed.

Lemma cards_total (l : list JSValue) :
  Forall renderable l -> exists cs, cards l = Normal cs.
Proof.
  induction 1 as [|a l Ha _ [cs IH]]; simpl; [eexists; reflexivity|].
  destruct (card_total a Ha) as [c ->]. rewrite IH. eexists. reflexivity.
Qed.

Lemma cards_throws (l : list JSValue) (e : Exn) : cards l = Throw e -> e = TypeError.
Proof.
  induction l as [|a l IH]; simpl; [discriminate|].
  destruct (card a) as [c|e'] eqn:Hc.
  - destruct (cards l) as [cs|e'']; [discriminate|]. intros [= <-]. apply IH. reflexivity.
  - intros [= <-]. apply (card_throws _ _ Hc).
Qed.

(** The map throws exactly when a card cannot be made of some element. *)
Lemma cards_throw (l : list JSValue) :
  ~ Forall renderable l -> cards l = Throw TypeError.
Proof.
  intros Hnot. destruct (cards l) as [cs|e] eqn:Hcs.
  - destruct Hnot. exact (proj1 (cards_queries l cs Hcs)).
  - rewrite (cards_throws l e Hcs). reflexivity.
Qed.

(** The queries on the whole card are those on its four areas. *)
Lemma NewsFeedCard_queries (t : jsstring -> jsstring) (s : ViewState) (tree : VNode) :
  NewsFeedCard t s = Normal tree ->
  exists area,
    list_area s = Normal area /\
    clickable tree =
      clickable area ++ clickable (error_area s) ++ clickable (more_area s) ++
      clickable (footer s) /\
    buttons tree =
      buttons area ++ buttons (error_area s) ++ buttons (more_area s) ++
      buttons (footer s) /\
    alerts tree =
      alerts area ++ alerts (error_area s) ++ alerts (more_area s) ++ alerts (footer s) /\
    placeholders tree =
      placeholders area ++ placeholders (error_area s) ++ placeholders (more_area s) ++
      placeholders (footer s).
Proof.
  unfold NewsFeedCard. destruct (list_area s) as [area|e]; [|discriminate].
  intros [= <-]. exists area. split; [reflexivity|].
  generalize (error_area s) (more_area s) (footer s). intros ea ma fo.
  unfold clickable, buttons, alerts, placeholders, with_class, styled.
  cbn [descendants flat_map app].
  rewrite !app_nil_r.
  cbn [omap list_omap List.filter has_class onClick key className disabled].
  repeat match goal with
         | |- context [jsstring_eqb (str ?a) (str ?b)] =>
             let E := fresh in
             assert (E : jsstring_eqb (str a) (str b) = false) by (vm_compute; reflexivity);
             rewrite !E; clear E
         end.
  rewrite !omap_app, !List.filter_app, <- !app_assoc.
  repeat split.
Qed.

Lemma skeletons_queries :
  clickable skeletons = [] /\ buttons skeletons = [] /\ alerts skeletons = [] /\
  length (placeholders skeletons) = 3%nat.
Proof.
  unfold skeletons, clickable, buttons, alerts, placeholders, with_class.
  cbn [map descendants flat_map app omap list_omap List.filter has_class onClick
       className].
  repeat split; vm_compute; reflexivity.
Qed.

Lemma error_area_queries (s : ViewState) :
  clickable (error_area s) = [] /\ buttons (error_area s) = [] /\
  placeholders (error_area s) = [] /\
  alerts (error_area s) =
    match error s with
    | Some (c :: e) => [styled "p" "text-center text-red-500 py-4" [Expr (JStr (c :: e))]]
    | _ => []
    end.
Proof.
  unfold error_area. destruct (error s) as [[|c e]|]; repeat split; reflexivity.
Qed.

Lemma more_area_queries (s : ViewState) :
  clickable (more_area s) = [] /\ buttons (more_area s) = [] /\
  alerts (more_area s) = [] /\
  length (placeholders (more_area s)) = (if fetchingMore s then 3 else 0)%nat.
Proof.
  unfold more_area. destruct (fetchingMore s); [exact skeletons_queries|].
  repeat split; reflexivity.
Qed.

Lemma footer_queries (s : ViewState) :
  clickable (footer s) = (if loading s then [] else [(None, LoadMoreClick)]) /\
  buttons (footer s) =
    (if loading s then []
     else [(Some LoadMoreClick, Some (fetchingMore s),
            [Expr (JStr (if fetchingMore s then str "Loading..." else str "More"))])]) /\
  alerts (footer s) = [] /\ placeholders (footer s) = [].
Proof.
  unfold footer. destruct (loading s); cbn [negb]; [repeat split|].
  destruct (fetchingMore s); repeat split; reflexivity.
Qed.

Lemma length_test_array (l : list JSValue) :
  exists n, ToNumber (JNum (Z.of_nat (length l))) = Normal n /\
            num_gt n (Some 0) = match l with [] => false | _ :: _ => true end.
Proof.
  eexists. split; [reflexivity|]. destruct l; [reflexivity|].
  simpl. apply Z.ltb_lt. lia.
Qed.

(** The three ways the list area comes out. *)
Lemma list_area_cases (s : ViewState) (area : VNode) :
  list_area s = Normal area ->
  (loading s = true /\ area = skeletons) \/
  (loading s = false /\ exists l cs,
     articles s = JArr l /\ l <> [] /\ cards l = Normal cs /\ area = Nodes cs) \/
  (loading s = false /\ ~ non_empty (articles s) /\ area = Expr JNull).
Proof.
  unfold list_area. destruct (loading s); [intros [= <-]; left; auto|].
  destruct (Get (articles s) (str "length")) as [len|e] eqn:Hlen; [|discriminate].
  destruct (ToNumber len) as [n|e] eqn:Hn; [|discriminate].
  destruct (num_gt n (Some 0)) eqn:Hgt.
  - destruct (articles s) as [| | | | |l|] eqn:Ha; try discriminate.
    destruct (cards l) as [cs|e] eqn:Hcs; [|discriminate]. intros [= <-].
    right. left. split; [reflexivity|]. exists l, cs.
    split; [reflexivity|]. split; [|split; [exact Hcs | reflexivity]].
    intros ->. simpl in Hlen. injection Hlen as <-. simpl in Hn. injection Hn as <-.
    discriminate Hgt.
  - intros [= <-]. right. right. split; [reflexivity|]. split; [|reflexivity].
    intros (len' & n' & Hlen' & Hn' & Hgt'). congruence.
Qed.

Lemma list_area_quiet (s : ViewState) (area : VNode) :
  list_area s = Normal area -> buttons area = [] /\ alerts area = [].
Proof.
  intros Ha.
  destruct (list_area_cases s area Ha)
    as [(_ & ->)|[(_ & l & cs & _ & _ & Hcs & ->)|(_ & _ & ->)]].
  - destruct skeletons_queries as (_ & Hb & Hal & _). auto.
  - destruct (cards_queries l cs Hcs) as (_ & _ & Hb & Hal & _). auto.
  - split; reflexivity.
Qed.

(** The list area of a list that is shown. *)
Lemma list_area_array (s : ViewState) (l : list JSValue) :
  loading s = false ->
  articles s = JArr l ->
  list_area s =
  match l with
  | [] => Normal (Expr JNull)
  | _ :: _ =>
      match cards l with
      | Throw e => Throw e
      | Normal cs => Normal (Nodes cs)
      end
  end.
Proof.
  intros Hl Harts. unfold list_area. rewrite Hl, Harts. cbn [Get].
  change (jsstring_eqb (str "length") (str "length")) with true. cbn iota.
  destruct (length_test_array l) as (n & -> & ->). destruct l; reflexivity.
Qed.

(** X11. Whenever the component returns its tree, the tree has a "More"
    button exactly when the card is not loading; the button calls
    [handleLoadMore], is disabled exactly while more articles are being
    fetched, and then reads "Loading...". *)
Theorem more_button_follows_the_flags
    (t : jsstring -> jsstring) (s : ViewState) (tree : VNode) :
  NewsFeedCard t s = Normal tree ->
  buttons tree =
    if loading s then []
    else [(Some LoadMoreClick, Some (fetchingMore s),
           [Expr (JStr (if fetchingMore s then str "Loading..." else str "More"))])].
Proof.
  intros Ht. destruct (NewsFeedCard_queries t s tree Ht) as (area & Ha & _ & -> & _).
  destruct (list_area_quiet s area Ha) as [-> _].
  destruct (error_area_queries s) as (_ & -> & _).
  destruct (more_area_queries s) as (_ & -> & _).
  destruct (footer_queries s) as (_ & -> & _). reflexivity.
Qed.

(** X12. While loading, the component never throws, whatever the list of
    the view state holds: its tree shows three placeholders, six when more
    articles are being fetched too, and nothing to click, neither article
    nor button. *)
Theorem loading_card_shows_placeholders
    (t : jsstring -> jsstring) (s : ViewState) :
  loading s = true ->
  exists tree,
    NewsFeedCard t s = Normal tree /\
    clickable tree = [] /\
    buttons tree = [] /\
    length (placeholders tree) = (if fetchingMore s then 6 else 3)%nat.
Proof.
  intros Hl.
  assert (Ha : list_area s = Normal skeletons) by (unfold list_area; rewrite Hl; reflexivity).
  assert (Ht : exists tree, NewsFeedCard t s = Normal tree)
    by (unfold NewsFeedCard; rewrite Ha; eexists; reflexivity).
  destruct Ht as [tree Ht]. exists tree. split; [exact Ht|].
  destruct (NewsFeedCard_queries t s tree Ht) as (area & Ha' & -> & -> & _ & ->).
  rewrite Ha in Ha'. injection Ha' as <-.
  destruct skeletons_queries as (-> & -> & _ & Hp).
  destruct (error_area_queries s) as (-> & -> & -> & _).
  destruct (more_area_queries s) as (-> & -> & _ & Hm).
  destruct (footer_queries s) as (-> & -> & _ & ->). rewrite Hl.
  split; [reflexivity|]. split; [reflexivity|].
  rewrite !length_app, Hp, Hm. destruct (fetchingMore s); reflexivity.
Qed.

(** What the tree of a shown list offers. *)
Lemma list_tree (t : jsstring -> jsstring) (s : ViewState) (l : list JSValue) (tree : VNode) :
  loading s = false ->
  articles s = JArr l ->
  NewsFeedCard t s = Normal tree ->
  Forall renderable l /\
  clickable tree = map (fun a => (key_of a, SelectArticle a)) l ++ [(None, LoadMoreClick)] /\
  length (placeholders tree) = (if fetchingMore s then 3 else 0)%nat.
Proof.
  intros Hl Harts Ht.
  destruct (NewsFeedCard_queries t s tree Ht) as (area & Ha & -> & _ & _ & ->).
  rewrite (list_area_array s l Hl Harts) in Ha.
  assert (Harea : Forall renderable l /\
                  clickable area = map (fun a => (key_of a, SelectArticle a)) l /\
                  placeholders area = []).
  { destruct l as [|a l].
    - injection Ha as <-. split; [apply Forall_nil_2|]. split; reflexivity.
    - destruct (cards (a :: l)) as [cs|e] eqn:Hcs; [|discriminate]. injection Ha as <-.
      destruct (cards_queries _ _ Hcs) as (Hall & Hc & _ & _ & Hp). auto. }
  destruct Harea as (Hall & -> & ->). split; [exact Hall|].
  destruct (error_area_queries s) as (-> & _ & -> & _).
  destruct (more_area_queries s) as (-> & _ & _ & Hm).
  destruct (footer_queries s) as (-> & _ & _ & ->). rewrite Hl.
  split; [reflexivity|]. rewrite !length_app, Hm. simpl. lia.
Qed.

(** A list of articles a card can be made of is shown. *)
Lemma list_renders (t : jsstring -> jsstring) (s : ViewState) (l : list JSValue) :
  loading s = false ->
  articles s = JArr l ->
  Forall renderable l ->
  exists tree, NewsFeedCard t s = Normal tree.
Proof.
  intros Hl Harts Hall. unfold NewsFeedCard.
  rewrite (list_area_array s l Hl Harts).
  destruct (cards_total l Hall) as [cs Hcs]. rewrite Hcs.
  destruct l; eexists; reflexivity.
Qed.

(** X13. Once loading is over, the component returns its tree for a list
    exactly when a card can be made of each element: none is [null] or
    [undefined], and the id of each can be made a key, which fails for an
    id that is an object with a property [toString].  The tree then has
    one clickable card per article, in the order of the list, keyed by the
    string form of the article's id and handing that very article to
    [onSelectArticle], then the "More" button; placeholders show only while
    more articles are being fetched. *)
Theorem list_card_shows_articles
    (t : jsstring -> jsstring) (s : ViewState) (l : list JSValue) :
  loading s = false ->
  articles s = JArr l ->
  ((exists tree, NewsFeedCard t s = Normal tree) <-> Forall renderable l) /\
  (forall tree,
     NewsFeedCard t s = Normal tree ->
     clickable tree =
       map (fun a => (key_of a, SelectArticle a)) l ++ [(None, LoadMoreClick)] /\
     length (placeholders tree) = (if fetchingMore s then 3 else 0)%nat) /\
  (forall (a : JSValue) (props fields : list (jsstring * JSValue)),
     a = JObj props ->
     lookup_prop (str "id") props = JObj fields ->
     (renderable a <-> has_own (str "toString") fields = false)).
Proof.
  intros Hl Harts. split; [|split].
  - split.
    + intros [tree Ht]. exact (proj1 (list_tree t s l tree Hl Harts Ht)).
    + apply list_renders; assumption.
  - intros tree Ht. exact (proj2 (list_tree t s l tree Hl Harts Ht)).
  - intros a props fields -> Hid. unfold renderable. cbn [id_of]. rewrite Hid.
    cbn [element_key ToString]. destruct (has_own (str "toString") fields).
    + split; [|discriminate]. intros (_ & _ & k & Hk). discriminate Hk.
    + split; [reflexivity|]. intros _.
      split; [discriminate|]. split; [discriminate|]. eexists. reflexivity.
Qed.

(** X14. Whenever the component returns its tree, the tree shows the error
    in one paragraph exactly when the error is a non-empty string, loading
    or not, with or without articles; a null or empty error shows no
    paragraph. *)
Theorem error_paragraph_follows_the_error
    (t : jsstring -> jsstring) (s : ViewState) (tree : VNode) :
  NewsFeedCard t s = Normal tree ->
  alerts tree =
    match error s with
    | Some (c :: e) => [styled "p" "text-center text-red-500 py-4" [Expr (JStr (c :: e))]]
    | _ => []
    end.
Proof.
  intros Ht. destruct (NewsFeedCard_queries t s tree Ht) as (area & Ha & _ & _ & -> & _).
  destruct (list_area_quiet s area Ha) as [_ ->].
  destruct (error_area_queries s) as (_ & _ & _ & ->).
  destruct (more_area_queries s) as (_ & _ & -> & _).
  destruct (footer_queries s) as (_ & _ & -> & _).
  rewrite !app_nil_r. reflexivity.
Qed.

(** A refresh adopts whatever passes its two tests, list or not. *)
Lemma fetchNews_start_adopts (L data : jsstring) (props : list (jsstring * JSValue))
    (ts : Z) (a : JSValue) (w : World) :
  localStorage w !! cacheKey L = Some data ->
  data <> [] ->
  JSON_parse data = Normal (JObj props) ->
  lookup_prop (str "timestamp") props = JNum ts ->
  lookup_prop (str "articles") props = a ->
  clock w (reads w) - ts < CACHE_DURATION ->
  non_empty a ->
  fetchNews_start true L w =
  (Normal false,
   {| view := {| articles := a; loading := false;
                 fetchingMore := fetchingMore (view w); error := None |};
      localStorage := localStorage w; clock := clock w; reads := S (reads w);
      trace := trace w; render_fault := render_fault w |}).
Proof.
  intros Hget Hdata Hparse Hts Harts Hfresh (len & n & Hlen & Hn & Hgt).
  unfold fetchNews_start, before_fetch. run_m. rewrite Hget.
  destruct data as [|c data]; [congruence|]. simpl.
  unfold use_fresh_cache. run_m. rewrite Hparse. simpl. rewrite Hts, Harts. simpl.
  destruct (Z.ltb_spec (clock w (reads w) - ts) CACHE_DURATION); [|lia].
  rewrite Hlen. simpl. rewrite Hn. simpl.
  unfold num_gt, num_lt in Hgt. rewrite Hgt. reflexivity.
Qed.

(** X15. Once loading is over the component throws a [TypeError] when the
    list of the view state is [null] or [undefined], is not an array but
    passes the test [length > 0], or is an array with an element that is
    [null] or [undefined], or whose id cannot be made a key.  The cache
    opens that door: a fresh payload whose articles pass the test without
    being an array is adopted by a refresh as it is, and the component then
    throws. *)
Theorem card_throws_on_a_broken_list :
  (forall (t : jsstring -> jsstring) (s : ViewState),
     loading s = false ->
     (articles s = JNull \/ articles s = JUndefined) \/
     ((forall l, articles s <> JArr l) /\ non_empty (articles s)) \/
     (exists l, articles s = JArr l /\ (JNull ∈ l \/ JUndefined ∈ l)) \/
     (exists l a e, articles s = JArr l /\ a ∈ l /\ element_key (id_of a) = Throw e) ->
     NewsFeedCard t s = Throw TypeError) /\
  (forall (t : jsstring -> jsstring) (L data : jsstring)
          (props : list (jsstring * JSValue)) (ts : Z) (a : JSValue)
          (settled : Completion Response) (w : World),
     localStorage w !! cacheKey L = Some data ->
     data <> [] ->
     JSON_parse data = Normal (JObj props) ->
     lookup_prop (str "timestamp") props = JNum ts ->
     lookup_prop (str "articles") props = a ->
     clock w (reads w) - ts < CACHE_DURATION ->
     non_empty a ->
     (forall l, a <> JArr l) ->
     exists w',
       fetchNews true L settled w = (Normal tt, w') /\
       articles (view w') = a /\
       NewsFeedCard t (view w') = Throw TypeError).
Proof.
  assert (Hlist : forall (t : jsstring -> jsstring) (s : ViewState) (l : list JSValue),
            loading s = false -> articles s = JArr l -> ~ Forall renderable l ->
            NewsFeedCard t s = Throw TypeError).
  { intros t s l Hl Harts Hnot. unfold NewsFeedCard.
    rewrite (list_area_array s l Hl Harts).
    destruct l as [|a l]; [destruct Hnot; apply Forall_nil_2|].
    rewrite (cards_throw _ Hnot). reflexivity. }
  assert (Hthrow : forall (t : jsstring -> jsstring) (s : ViewState),
            loading s = false ->
            (articles s = JNull \/ articles s = JUndefined) \/
            ((forall l, articles s <> JArr l) /\ non_empty (articles s)) \/
            (exists l, articles s = JArr l /\ (JNull ∈ l \/ JUndefined ∈ l)) \/
            (exists l a e, articles s = JArr l /\ a ∈ l /\
                           element_key (id_of a) = Throw e) ->
            NewsFeedCard t s = Throw TypeError).
  { intros t s Hl Hcase.
    destruct Hcase as [Hnull|[[Hna (len & n & Hlen & Hn & Hgt)]
                             |[(l & Harts & Hin)|(l & a & e & Harts & Hin & Hk)]]].
    - unfold NewsFeedCard, list_area. rewrite Hl.
      destruct Hnull as [-> | ->]; reflexivity.
    - unfold NewsFeedCard, list_area. rewrite Hl, Hlen, Hn, Hgt.
      destruct (articles s); try reflexivity. destruct (Hna elements eq_refl).
    - apply (Hlist t s l Hl Harts). intros Hall.
      rewrite Forall_forall in Hall.
      destruct Hin as [Hin|Hin]; destruct (Hall _ Hin) as (Hn & Hu & _); congruence.
    - apply (Hlist t s l Hl Harts). intros Hall.
      rewrite Forall_forall in Hall.
      destruct (Hall _ Hin) as (_ & _ & k & Hk'). congruence. }
  split; [exact Hthrow|].
  intros t L data props ts a settled w Hget Hdata Hparse Hts Harts Hfresh Hn Hna.
  unfold fetchNews, mbind, M_bind.
  rewrite (fetchNews_start_adopts L data props ts a w) by assumption.
  eexists. split; [reflexivity|]. split; [reflexivity|].
  apply Hthrow; [reflexivity|]. right. left. split; assumption.
Qed.

Lemma stamped_renderable (w : World) (l : list JSValue) :
  Forall renderable (stamped w l).
Proof.
  apply Forall_lookup. intros i a Hi. rewrite stamped_lookup in Hi.
  destruct (l !! i); [|discriminate]. injection Hi as <-.
  split; [discriminate|]. split; [discriminate|].
  cbn [id_of]. rewrite lookup_set_prop_eq. eexists. reflexivity.
Qed.

(** X16. After a successful refresh the component always returns its tree,
    whatever the decoded elements were, since each was made a record with a
    numeric id: one clickable card per decoded element, keyed by the string
    form of the id it was given, then the "More" button. *)
Theorem successful_refresh_renders
    (t : jsstring -> jsstring) (L : jsstring) (settled : Completion Response)
    (l : list JSValue) (w : World) :
  fetched settled = Normal l ->
  exists w' tree,
    fetchNews_resume true L settled w = (Normal tt, w') /\
    NewsFeedCard t (view w') = Normal tree /\
    clickable tree =
      imap (fun i article =>
              (Some (Number_toString (clock w (i + reads w)%nat + Z.of_nat i)),
               SelectArticle
                 (JObj (set_prop (str "id")
                          (JNum (clock w (i + reads w)%nat + Z.of_nat i))
                          (spread_props article))))) l
      ++ [(None, LoadMoreClick)].
Proof.
  intros Hf.
  set (s := {| articles := JArr (stamped w l); loading := false;
               fetchingMore := fetchingMore (view w); error := error (view w) |}).
  destruct (list_renders t s (stamped w l) eq_refl eq_refl (stamped_renderable w l))
    as [tree Ht].
  destruct (list_tree t s (stamped w l) tree eq_refl eq_refl Ht) as (_ & Hc & _).
  eexists _, tree. split; [apply (fetchNews_resume_refresh_ok _ _ _ _ Hf)|].
  split; [exact Ht|]. rewrite Hc. f_equal.
  unfold stamped.
  match goal with
  | |- map ?f ?x = _ => change (map f x) with (f <$> x)
  end.
  rewrite fmap_imap. apply imap_ext. intros i a _. simpl.
  unfold key_of. cbn [id_of]. rewrite lookup_set_prop_eq. reflexivity.
Qed.

End Extras.

(** ** The further properties on concrete runs *)

Import Runs.

Lemma wrapper_text_is_stripped_witness :
  (LBRACKET ∉ str "noise {not json} ") /\
  (RBRACKET ∉ str " trailing") /\
  extract_json (Some noisy_answer) = Normal (JArr [article "A" "s" "c" "u"]).
Proof.
  assert (Hpre : LBRACKET ∉ str "noise {not json} ")
    by (apply indexOf_absent; vm_compute; reflexivity).
  assert (Hpost : RBRACKET ∉ str " trailing")
    by (apply indexOf_absent; vm_compute; reflexivity).
  split; [exact Hpre|]. split; [exact Hpost|].
  pose proof (proj1 (wrapper_text_is_stripped
                       (str "noise {not json} ")
                       (join (str ",") (map write [article "A" "s" "c" "u"]))
                       (str " trailing") Hpre Hpost)) as He.
  vm_compute in He. vm_compute. exact He.
Defined.

Lemma successful_refresh_replaces_list_witness :
  fetched (answered noisy_answer) = Normal [article "A" "s" "c" "u"] /\
  localStorage empty_world !! cacheKey lang = None /\
  exists w' batch,
    fetchNews true lang (answered noisy_answer) empty_world = (Normal tt, w') /\
    articles (view w') = JArr batch /\
    length batch = 1%nat /\
    error (view w') = None /\
    loading (view w') = false.
Proof.
  assert (Hf : fetched (answered noisy_answer) = Normal [article "A" "s" "c" "u"])
    by (vm_compute; reflexivity).
  split; [exact Hf|]. split; [reflexivity|].
  destruct (proj2 (successful_refresh_replaces_list lang (answered noisy_answer)
                     [article "A" "s" "c" "u"] empty_world Hf) eq_refl)
    as (w' & batch & Hr & Ha & Hlen & He & Hl & _).
  exists w', batch. repeat split; assumption.
Defined.

Section CodecRuns.
#[local] Existing Instance Codec.engine.

Lemma refresh_then_refresh_witness :
  fetched (answered (write (JArr [article "A" "s" "c" "u"]))) =
    Normal [article "A" "s" "c" "u"] /\
  let w1 := snd (fetchNews_resume true lang
                   (answered (write (JArr [article "A" "s" "c" "u"]))) requested_world) in
  clock w1 (reads w1) - 5000002 < CACHE_DURATION /\
  exists w',
    fetchNews true lang network_down w1 = (Normal tt, w') /\
    articles (view w') = JArr [stored 5000001 "A"] /\
    trace w' = trace w1.
Proof.
  assert (Hf : fetched (answered (write (JArr [article "A" "s" "c" "u"]))) =
               Normal [article "A" "s" "c" "u"])
    by (vm_compute; reflexivity).
  split; [exact Hf|]. cbv zeta.
  assert (Hfresh :
    clock (snd (fetchNews_resume true lang
                  (answered (write (JArr [article "A" "s" "c" "u"]))) requested_world))
      (reads (snd (fetchNews_resume true lang
                     (answered (write (JArr [article "A" "s" "c" "u"]))) requested_world)))
    - 5000002 < CACHE_DURATION)
    by (vm_compute; reflexivity).
  split; [exact Hfresh|].
  destruct (proj1 (refresh_then_refresh lang
                     (answered (write (JArr [article "A" "s" "c" "u"])))
                     [article "A" "s" "c" "u"] requested_world
                     (snd (fetchNews_resume true lang
                             (answered (write (JArr [article "A" "s" "c" "u"])))
                             requested_world))
                     Hf ltac:(discriminate) ltac:(vm_compute; reflexivity)
                     ltac:(vm_compute; discriminate) eq_refl) Hfresh network_down)
    as (w' & Hr & Ha & Ht & _).
  exists w'. split; [exact Hr|]. split; [exact Ha | exact Ht].
Defined.

Lemma load_more_then_refresh_witness :
  fetched (answered (write (JArr [article "B" "s" "c" "u"]))) =
    Normal [article "B" "s" "c" "u"] /\
  articles (view growing_world) = JArr [stored 5000001 "A"] /\
  let w1 := snd (fetchNews_resume false lang
                   (answered (write (JArr [article "B" "s" "c" "u"]))) growing_world) in
  clock w1 (reads w1) - 5000005 < CACHE_DURATION /\
  exists w',
    fetchNews true lang network_down w1 = (Normal tt, w') /\
    articles (view w') = JArr [stored 5000001 "A"; stored 5000004 "B"] /\
    trace w' = trace w1.
Proof.
  assert (Hf : fetched (answered (write (JArr [article "B" "s" "c" "u"]))) =
               Normal [article "B" "s" "c" "u"])
    by (vm_compute; reflexivity).
  split; [exact Hf|]. split; [reflexivity|]. cbv zeta.
  assert (Hfresh :
    clock (snd (fetchNews_resume false lang
                  (answered (write (JArr [article "B" "s" "c" "u"]))) growing_world))
      (reads (snd (fetchNews_resume false lang
                     (answered (write (JArr [article "B" "s" "c" "u"]))) growing_world)))
    - 5000005 < CACHE_DURATION)
    by (vm_compute; reflexivity).
  split; [exact Hfresh|].
  exact (load_more_then_refresh lang
           (answered (write (JArr [article "B" "s" "c" "u"])))
           [article "B" "s" "c" "u"] [stored 5000001 "A"] growing_world
           (snd (fetchNews_resume false lang
                   (answered (write (JArr [article "B" "s" "c" "u"]))) growing_world))
           Hf eq_refl ltac:(discriminate) ltac:(vm_compute; reflexivity)
           ltac:(vm_compute; discriminate) eq_refl Hfresh network_down).
Defined.

Lemma empty_batch_is_never_served_witness :
  fetched (answered (write (JArr []))) = Normal [] /\
  let w1 := snd (fetchNews_resume true lang (answered (write (JArr []))) requested_world) in
  articles (view w1) = JArr [] /\
  exists w' date,
    fetchNews_start true lang w1 = (Normal true, w') /\
    trace w' = trace w1 ++ [Query lang date] /\
    articles (view (snd (fetchNews_resume true lang network_down w'))) = FALLBACK_ARTICLES.
Proof.
  assert (Hf : fetched (answered (write (JArr []))) = Normal [])
    by (vm_compute; reflexivity).
  split; [exact Hf|]. cbv zeta.
  destruct (empty_batch_is_never_served lang (answered (write (JArr []))) requested_world
              (snd (fetchNews_resume true lang (answered (write (JArr []))) requested_world))
              Hf ltac:(vm_compute; reflexivity) ltac:(vm_compute; discriminate) eq_refl)
    as (Ha & w' & date & Hs & Ht & Hfail).
  split; [exact Ha|]. exists w', date. split; [exact Hs|]. split; [exact Ht|].
  exact (Hfail network_down (Thrown (str "TypeError: Failed to fetch"))
           (str "TypeError: Failed to fetch") eq_refl eq_refl).
Defined.

End CodecRuns.

Lemma other_languages_are_untouched_witness :
  Forall (fun e => event_language e <> Some (str "zh"))
    [EffectRun lang; Settle 0 (answered noisy_answer); ClickMore lang] /\
  localStorage
    (world (run (mounted zh_world)
              [EffectRun lang; Settle 0 (answered noisy_answer); ClickMore lang]))
    !! cacheKey (str "zh") = Some (str "kept").
Proof.
  assert (Hes : Forall (fun e => event_language e <> Some (str "zh"))
                  [EffectRun lang; Settle 0 (answered noisy_answer); ClickMore lang]).
  { repeat apply Forall_cons_2; try apply Forall_nil_2;
      intros Heq; vm_compute in Heq; discriminate Heq. }
  split; [exact Hes|].
  rewrite (proj2 other_languages_are_untouched zh_world _ (str "zh") Hes).
  vm_compute. reflexivity.
Defined.

Lemma loading_only_while_refresh_waits_witness :
  no_refresh_pending
    (run (mounted empty_world) [EffectRun lang; ClickMore lang; Settle 0 network_down]) /\
  loading (view (world (run (mounted empty_world)
                          [EffectRun lang; ClickMore lang; Settle 0 network_down]))) = false.
Proof.
  assert (Hp : no_refresh_pending
                 (run (mounted empty_world)
                    [EffectRun lang; ClickMore lang; Settle 0 network_down])).
  { unfold no_refresh_pending.
    replace (pending (run (mounted empty_world)
                        [EffectRun lang; ClickMore lang; Settle 0 network_down]))
      with [ {| isRefresh := false; language := lang |} ]
      by (vm_compute; reflexivity).
    apply Forall_singleton. reflexivity. }
  split; [exact Hp|].
  exact (loading_only_while_refresh_waits empty_world lang
           [ClickMore lang; Settle 0 network_down] Hp).
Defined.

Lemma error_is_cleared_by_new_attempts_witness :
  error (view empty_world) = None /\
  (error (view (world (run (mounted empty_world)
                         [EffectRun lang; Settle 0 rate_limited]))) = None \/
   exists m,
     error (view (world (run (mounted empty_world)
                           [EffectRun lang; Settle 0 rate_limited]))) = Some m /\
     m ∈ user_facing).
Proof.
  split; [reflexivity|].
  exact (proj1 error_is_cleared_by_new_attempts empty_world
           [EffectRun lang; Settle 0 rate_limited] (or_introl eq_refl)).
Defined.

Lemma ids_of_two_batches_witness :
  (forall i j : nat, (i <= j)%nat -> clock requested_world i <= clock requested_world j) /\
  fetched (answered noisy_answer) = Normal [article "A" "s" "c" "u"] /\
  exists w',
    fetchNews_resume false lang (answered noisy_answer) second_batch_world = (Normal tt, w') /\
    articles (view w') =
      JArr (stamped requested_world [article "A" "s" "c" "u"] ++
            stamped second_batch_world [article "A" "s" "c" "u"]) /\
    NoDup (map id_of (stamped requested_world [article "A" "s" "c" "u"] ++
                      stamped second_batch_world [article "A" "s" "c" "u"])).
Proof.
  assert (Hm : forall i j : nat,
             (i <= j)%nat -> clock requested_world i <= clock requested_world j)
    by (intros i j Hij; simpl; unfold ticking; lia).
  assert (Hf : fetched (answered noisy_answer) = Normal [article "A" "s" "c" "u"])
    by (vm_compute; reflexivity).
  split; [exact Hm|]. split; [exact Hf|].
  apply (ids_of_two_batches lang (answered noisy_answer)
           [article "A" "s" "c" "u"] [article "A" "s" "c" "u"]
           requested_world second_batch_world).
  - reflexivity.
  - exact Hm.
  - simpl. lia.
  - vm_compute. discriminate.
  - reflexivity.
  - exact Hf.
Defined.

(** A second batch stamped in the millisecond of the first repeats its
    id: the ids are not distinct across batches by themselves. *)
Example fast_second_batch_repeats_an_id :
  map id_of (stamped frozen_world [article "A" "s" "c" "u"] ++
             stamped (advance 2 frozen_world) [article "B" "s" "c" "u"]) =
  [JNum 5000000; JNum 5000000].
Proof. vm_compute. reflexivity. Qed.

Lemma more_button_follows_the_flags_witness :
  exists tree,
    NewsFeedCard untranslated failed_view = Normal tree /\
    buttons tree =
      [(Some LoadMoreClick, Some true, [Expr (JStr (str "Loading..."))])].
Proof.
  destruct (NewsFeedCard untranslated failed_view) as [tree|e] eqn:Ht;
    [|vm_compute in Ht; discriminate Ht].
  exists tree. split; [reflexivity|].
  exact (more_button_follows_the_flags untranslated failed_view tree Ht).
Defined.

Lemma loading_card_shows_placeholders_witness :
  loading initial_view = true /\
  exists tree,
    NewsFeedCard untranslated initial_view = Normal tree /\
    clickable tree = [] /\
    buttons tree = [] /\
    length (placeholders tree) = 3%nat.
Proof.
  split; [reflexivity|].
  exact (loading_card_shows_placeholders untranslated initial_view eq_refl).
Defined.

Lemma list_card_shows_articles_witness :
  loading failed_view = false /\
  articles failed_view = JArr [stored 1000000 "Old"] /\
  exists tree,
    NewsFeedCard untranslated failed_view = Normal tree /\
    clickable tree =
      [(Some (str "1000000"), SelectArticle (stored 1000000 "Old"));
       (None, LoadMoreClick)] /\
    length (placeholders tree) = 3%nat.
Proof.
  split; [reflexivity|]. split; [reflexivity|].
  destruct (list_card_shows_articles untranslated failed_view [stored 1000000 "Old"]
              eq_refl eq_refl) as (Hiff & Htree & _).
  destruct (proj2 Hiff) as [tree Ht].
  { apply Forall_singleton. split; [discriminate|]. split; [discriminate|].
    eexists. reflexivity. }
  exists tree. split; [exact Ht|].
  destruct (Htree tree Ht) as [Hc Hp].
  split; [rewrite Hc; vm_compute; reflexivity | exact Hp].
Defined.

(** An article whose id is an object with a property [toString]: no key
    can be made of it, and the component throws. *)
Example card_throws_on_an_unprintable_id :
  NewsFeedCard untranslated odd_id_view = Throw TypeError.
Proof. vm_compute. reflexivity. Qed.

Lemma error_paragraph_follows_the_error_witness :
  exists tree,
    NewsFeedCard untranslated failed_view = Normal tree /\
    alerts tree = [styled "p" "text-center text-red-500 py-4" [Expr (JStr FETCH_FAILED)]].
Proof.
  destruct (NewsFeedCard untranslated failed_view) as [tree|e] eqn:Ht;
    [|vm_compute in Ht; discriminate Ht].
  exists tree. split; [reflexivity|].
  exact (error_paragraph_follows_the_error untranslated failed_view tree Ht).
Defined.

Lemma card_throws_on_a_broken_list_witness :
  loading (view unspreadable_world) = false /\
  (forall l, articles (view unspreadable_world) <> JArr l) /\
  non_empty (articles (view unspreadable_world)) /\
  NewsFeedCard untranslated (view unspreadable_world) = Throw TypeError.
Proof.
  assert (Hna : forall l, articles (view unspreadable_world) <> JArr l)
    by (intros l; discriminate).
  assert (Hn : non_empty (articles (view unspreadable_world)))
    by (exists (JNum 1), (Some 1); split; [|split]; reflexivity).
  split; [reflexivity|]. split; [exact Hna|]. split; [exact Hn|].
  apply (proj1 card_throws_on_a_broken_list untranslated (view unspreadable_world) eq_refl).
  right. left. split; [exact Hna | exact Hn].
Defined.

Lemma successful_refresh_renders_witness :
  fetched (answered noisy_answer) = Normal [article "A" "s" "c" "u"] /\
  exists w' tree,
    fetchNews_resume true lang (answered noisy_answer) requested_world = (Normal tt, w') /\
    NewsFeedCard untranslated (view w') = Normal tree /\
    clickable tree =
      [(Some (str "5000001"), SelectArticle (stored 5000001 "A")); (None, LoadMoreClick)].
Proof.
  assert (Hf : fetched (answered noisy_answer) = Normal [article "A" "s" "c" "u"])
    by (vm_compute; reflexivity).
  split; [exact Hf|].
  destruct (successful_refresh_renders untranslated lang (answered noisy_answer)
              [article "A" "s" "c" "u"] requested_world Hf)
    as (w' & tree & Hr & Ht & Hc).
  exists w', tree. split; [exact Hr|]. split; [exact Ht|].
  rewrite Hc. vm_compute. reflexivity.
Defined.
